(** * Recursive chunker of chonkie: a shallow embedding and its properties

    The development follows [src/chonkie/chunker/recursive.py] (the class
    [RecursiveChunker]) and [src/chonkie/types/recurisve.py] (the dataclasses
    [RecursiveLevel], [RecursiveRules] and [RecursiveChunk]).

    Python values are embedded as follows.
    - [int] is [Z]; list positions that Python writes as [int] are [Z] too,
      with the negative-index and slice-clamping rules written out.
    - [str] is a list of Unicode code points ([N]); the separator the chunker
      injects, U+2704, is one code point, as in Python.
    - an exception is a value of [exn]; a function that can raise returns
      [result].
    - a read [object.name] of a [RecursiveLevel] and a call
      [RecursiveChunk(keyword=value, ...)] are resolved against the fields
      the dataclass declares: an unknown name raises [AttributeError], an
      unknown keyword [TypeError].
    - the tokenizer is external: it is a section variable wherever the code
      calls it. *)

From Stdlib Require Import String Ascii.
From Stdlib Require Import List ZArith NArith Lia Bool.
Import ListNotations.
Open Scope Z_scope.

(** ** Exceptions and results *)

Inductive exn : Type :=
| ValueError (msg : string)
| TypeError (msg : string)
| NotImplementedError (msg : string)
| AttributeError (msg : string)
| IndexError (msg : string)
| OutOfFuel.

Inductive result (A : Type) : Type :=
| Ok (a : A)
| Raise (e : exn).
Arguments Ok {A} a.
Arguments Raise {A} e.

Definition bind {A B} (m : result A) (k : A -> result B) : result B :=
  match m with
  | Ok a => k a
  | Raise e => Raise e
  end.

Notation "x <- m ;; k" := (bind m (fun x => k))
  (at level 61, m at next level, right associativity).
Notation "' p <- m ;; k" := (bind m (fun x => match x with p => k end))
  (at level 61, p pattern, m at next level, right associativity).

(** ** Python built-ins used by the chunker *)

Module Py.

Definition char := N.
Definition str := list char.

(** A [str] literal written with ASCII characters. *)
Definition lit (s : string) : str := map N_of_ascii (list_ascii_of_string s).

Definition len {A} (l : list A) : Z := Z.of_nat (length l).

Definition str_eqb (a b : str) : bool :=
  if list_eq_dec N.eq_dec a b then true else false.

(** Truth value of a sequence: [bool(s)]. *)
Definition truthy {A} (l : list A) : bool :=
  match l with [] => false | _ => true end.

(** [s.startswith(p)]. *)
Fixpoint startswith (p s : str) : bool :=
  match p, s with
  | [], _ => true
  | _ :: _, [] => false
  | a :: p', b :: s' => N.eqb a b && startswith p' s'
  end.

(** [s.split(c)] for a separator [c] of one code point. *)
Fixpoint split (c : char) (s : str) : list str :=
  match s with
  | [] => [[]]
  | x :: s' =>
      if N.eqb x c then [] :: split c s'
      else match split c s' with
           | [] => [[x]]
           | p :: ps => (x :: p) :: ps
           end
  end.

(** [sep.join(l)]. *)
Fixpoint join (sep : str) (l : list str) : str :=
  match l with
  | [] => []
  | [x] => x
  | x :: l' => x ++ sep ++ join sep l'
  end.

(** [s.replace(old, new)]: the non-overlapping occurrences of [old], found
    from the left, are replaced by [new].  [skip] counts the characters of a
    matched occurrence still to be passed over.  With [old] empty, Python
    puts [new] before every character and at the end. *)
Fixpoint replace_from (old new : str) (skip : nat) (s : str) : str :=
  match s with
  | [] => []
  | x :: s' =>
      match skip with
      | S k => replace_from old new k s'
      | O => if startswith old s
             then new ++ replace_from old new (length old - 1) s'
             else x :: replace_from old new 0 s'
      end
  end.

Definition replace (old new s : str) : str :=
  match old with
  | [] => new ++ flat_map (fun x => x :: new) s
  | _ :: _ => replace_from old new 0 s
  end.

(** [s.find(sub)], with [None] for [-1]; [s.index(sub)] raises [ValueError]
    exactly when it is [None]. *)
Fixpoint find (sub s : str) : option nat :=
  match s with
  | [] => if startswith sub [] then Some O else None
  | _ :: s' => if startswith sub s then Some O else option_map S (find sub s')
  end.

(** Slice bound of [l[i:]] and [l[:i]] for a sequence of length [n]. *)
Definition clamp (n i : Z) : Z :=
  if i <? 0 then Z.max 0 (n + i) else Z.min i n.

(** [l[i:j]]. *)
Definition slice {A} (l : list A) (i j : Z) : list A :=
  let a := clamp (len l) i in
  let b := clamp (len l) j in
  firstn (Z.to_nat (b - a)) (skipn (Z.to_nat a) l).

(** [l[i:]]. *)
Definition slice_from {A} (l : list A) (i : Z) : list A :=
  skipn (Z.to_nat (clamp (len l) i)) l.

(** [l[i]]; [None] stands for [IndexError]. *)
Definition get {A} (l : list A) (i : Z) : option A :=
  if i <? 0
  then (if len l + i <? 0 then None else nth_error l (Z.to_nat (len l + i)))
  else nth_error l (Z.to_nat i).

(** [l[-1]] of a non-empty list; [None] for the empty one. *)
Definition last_of {A} (l : list A) : option A :=
  match rev l with
  | [] => None
  | x :: _ => Some x
  end.

(** [itertools.accumulate(l, f)]. *)
Fixpoint accumulate_from {A} (f : A -> A -> A) (acc : A) (l : list A) : list A :=
  match l with
  | [] => [acc]
  | x :: l' => acc :: accumulate_from f (f acc x) l'
  end.

Definition accumulate {A} (f : A -> A -> A) (l : list A) : list A :=
  match l with
  | [] => []
  | x :: l' => accumulate_from f x l'
  end.

(** [bisect.bisect_left(a, x, lo=lo)]: the library's binary search, with
    [hi = len(a)].  [hi - lo] shrinks at every turn, so [length a] turns are
    enough.  [mid] lies between [lo] and [hi - 1], a valid position, so the
    [None] branch is never taken from [bisect_left]. *)
Fixpoint bisect_loop (fuel : nat) (a : list Z) (x lo hi : Z) : Z :=
  match fuel with
  | O => lo
  | S fuel' =>
      if lo <? hi then
        let mid := (lo + hi) / 2 in
        match get a mid with
        | Some v => if v <? x then bisect_loop fuel' a x (mid + 1) hi
                    else bisect_loop fuel' a x lo mid
        | None => lo
        end
      else lo
  end.

Definition bisect_left (a : list Z) (x lo : Z) : result Z :=
  if lo <? 0 then Raise (ValueError "lo must be non-negative"%string)
  else Ok (bisect_loop (length a) a x lo (len a)).

(** [range(0, n, step)]. *)
Fixpoint range_from (fuel : nat) (i n step : Z) : list Z :=
  match fuel with
  | O => []
  | S fuel' => if i <? n then i :: range_from fuel' (i + step) n step else []
  end.

Definition range0 (n step : Z) : result (list Z) :=
  if step =? 0 then Raise (ValueError "range() arg 3 must not be zero"%string)
  else if step <? 0 then Ok []
  else Ok (range_from (Z.to_nat n) 0 n step).

End Py.
Import Py.

(** ** types/recurisve.py *)

(** [include_delim : Literal["prev", "next"] | None]. *)
Inductive IncludeDelim : Type := Prev | Next | NoInclude.

(** [custom_delimiters : list[str] | str | None]; [None] is the [option]. *)
Inductive Delimiters : Type :=
| DelimStr (s : str)
| DelimList (l : list str).

Record RecursiveLevel : Type := {
  whitespace_delimiter : bool;
  custom_delimiters : option Delimiters;
  include_delim : IncludeDelim
}.

Definition is_some {A} (o : option A) : bool :=
  match o with Some _ => true | None => false end.

(** [RecursiveLevel._validate_fields]. *)
Definition _validate_fields (self : RecursiveLevel) : result unit :=
  if is_some (custom_delimiters self) && whitespace_delimiter self then
    Raise (NotImplementedError
      "Cannot use whitespace as a delimiter and also specify custom delimiters."%string)
  else
    match custom_delimiters self with
    | None => Ok tt
    | Some (DelimStr s) =>
        if len s =? 0 then
          Raise (ValueError "Custom delimiters cannot be an empty string."%string)
        else Ok tt
    | Some (DelimList l) =>
        if existsb (fun delim => len delim =? 0) l then
          Raise (ValueError "Custom delimiters cannot be an empty string."%string)
        else if existsb (fun delim => str_eqb delim (lit " ")) l then
          Raise (ValueError
            "Custom delimiters cannot be whitespace only. Set whitespace_delimiter to True instead."%string)
        else Ok tt
    end.

(** The dataclass constructor: the generated [__init__] followed by
    [__post_init__]. *)
Definition new_RecursiveLevel (whitespace_delimiter : bool)
    (custom_delimiters : option Delimiters) (include_delim : IncludeDelim)
    : result RecursiveLevel :=
  let self := {| whitespace_delimiter := whitespace_delimiter;
                 custom_delimiters := custom_delimiters;
                 include_delim := include_delim |} in
  _ <- _validate_fields self ;;
  Ok self.

(** [bool(recursive_level.delimiters)]. *)
Definition delimiters_truthy (d : option Delimiters) : bool :=
  match d with
  | None => false
  | Some (DelimStr s) => truthy s
  | Some (DelimList l) => truthy l
  end.

(** [for delimiter in recursive_level.delimiters]: a list gives its members,
    a [str] gives its characters, each a [str] of length one. *)
Definition delimiters_iter (d : option Delimiters) : list str :=
  match d with
  | None => []
  | Some (DelimStr s) => map (fun c => [c]) s
  | Some (DelimList l) => l
  end.

(** The value of a data attribute of a [RecursiveLevel]. *)
Inductive attr : Type :=
| AttrBool (b : bool)
| AttrDelimiters (d : option Delimiters)
| AttrInclude (i : IncludeDelim).

(** [recursive_level.<name>] for a data attribute.  An instance has the three
    fields the dataclass declares and none besides: any other name raises
    [AttributeError].  (The methods of the class are not data attributes, and
    the chunker reads none of them.) *)
Definition getattr (rl : RecursiveLevel) (name : string) : result attr :=
  if String.eqb name "whitespace_delimiter" then
    Ok (AttrBool (whitespace_delimiter rl))
  else if String.eqb name "custom_delimiters" then
    Ok (AttrDelimiters (custom_delimiters rl))
  else if String.eqb name "include_delim" then
    Ok (AttrInclude (include_delim rl))
  else
    Raise (AttributeError
      (String.append "'RecursiveLevel' object has no attribute '"
         (String.append name "'"))).

(** [bool(value)]. *)
Definition attr_truthy (a : attr) : bool :=
  match a with
  | AttrBool b => b
  | AttrDelimiters d => delimiters_truthy d
  | AttrInclude NoInclude => false
  | AttrInclude _ => true
  end.

(** [value is None]. *)
Definition attr_is_none (a : attr) : bool :=
  match a with
  | AttrDelimiters None | AttrInclude NoInclude => true
  | _ => false
  end.

(** [value == s] for a [str] [s]. *)
Definition attr_eq_str (a : attr) (s : str) : bool :=
  match a with
  | AttrInclude Prev => str_eqb (lit "prev") s
  | AttrInclude Next => str_eqb (lit "next") s
  | AttrDelimiters (Some (DelimStr d)) => str_eqb d s
  | _ => false
  end.

(** [for delimiter in value]. *)
Definition attr_iter (a : attr) : result (list str) :=
  match a with
  | AttrDelimiters (Some d) => Ok (delimiters_iter (Some d))
  | AttrInclude Prev => Ok (map (fun c => [c]) (lit "prev"))
  | AttrInclude Next => Ok (map (fun c => [c]) (lit "next"))
  | AttrDelimiters None | AttrInclude NoInclude =>
      Raise (TypeError "'NoneType' object is not iterable"%string)
  | AttrBool _ => Raise (TypeError "'bool' object is not iterable"%string)
  end.

(** [RecursiveRules.levels] once [__post_init__] has run: a bare level or a
    list of levels ([None] has been replaced by the default list). *)
Inductive RecursiveRules : Type :=
| RulesLevel (level : RecursiveLevel)
| RulesList (levels : list RecursiveLevel).

Definition level_of (delims : list string) : RecursiveLevel :=
  {| whitespace_delimiter := false;
     custom_delimiters := Some (DelimList (map lit delims));
     include_delim := Prev |}.

Definition em_dash : str := [8212%N].

Definition default_levels : list RecursiveLevel :=
  let paragraphs :=
    {| whitespace_delimiter := false;
       custom_delimiters := Some (DelimList [[10%N]; [10%N; 10%N]; [13%N; 10%N]]);
       include_delim := Prev |} in
  let sentences := level_of ["."; "!"; "?"]%string in
  let pauses :=
    {| whitespace_delimiter := false;
       custom_delimiters := Some (DelimList
         (map lit ["{"; "}"]%string ++ [[34%N]] ++
          map lit ["["; "]"; "<"; ">"; "("; ")"; ":"; ";"; ","]%string ++
          [em_dash] ++
          map lit ["|"; "~"; "-"; "..."; "`"; "'"]%string));
       include_delim := Prev |} in
  let word := {| whitespace_delimiter := true; custom_delimiters := None;
                 include_delim := Prev |} in
  let token := {| whitespace_delimiter := false; custom_delimiters := None;
                  include_delim := Prev |} in
  [paragraphs; sentences; pauses; word; token].

Fixpoint validate_all (levels : list RecursiveLevel) : result unit :=
  match levels with
  | [] => Ok tt
  | level :: rest => _ <- _validate_fields level ;; validate_all rest
  end.

(** [RecursiveRules(levels)]: the constructor with its [__post_init__]. *)
Definition new_RecursiveRules (levels : option RecursiveRules)
    : result RecursiveRules :=
  match levels with
  | None => Ok (RulesList default_levels)
  | Some (RulesLevel level) => _ <- _validate_fields level ;; Ok (RulesLevel level)
  | Some (RulesList l) => _ <- validate_all l ;; Ok (RulesList l)
  end.

(** [RecursiveRules.__len__]: [len(self.levels)]; a bare level has no
    length. *)
Definition rules_len (rules : RecursiveRules) : result Z :=
  match rules with
  | RulesList l => Ok (len l)
  | RulesLevel _ =>
      Raise (TypeError "object of type 'RecursiveLevel' has no len()"%string)
  end.

(** [RecursiveRules.__getitem__]. *)
Definition rules_getitem (rules : RecursiveRules) (index : Z)
    : result RecursiveLevel :=
  match rules with
  | RulesList l =>
      match get l index with
      | Some level => Ok level
      | None => Raise (IndexError "list index out of range"%string)
      end
  | RulesLevel _ =>
      Raise (TypeError
        "Levels must be a list of RecursiveLevel objects to use indexing."%string)
  end.

(** [RecursiveChunk(Chunk)]: the dataclass adds the field [recursive_level]
    to those of its base class.  [Chunk] ([chonkie.types.base]) is not under
    src/; its fields are the four that [RecursiveChunk.str_repr] reads and
    that the docstring of its other subclass, [SentenceChunk]
    ([types/sentence.py]), lists: [text], [start_index], [end_index],
    [token_count]. *)
Record RecursiveChunk : Type := {
  text : str;
  start_index : Z;
  end_index : Z;
  token_count : Z;
  recursive_level : option Z
}.

(** The keyword arguments of a call [RecursiveChunk(...)]: the values given
    for the fields, and the keywords that name no field. *)
Record ChunkArgs : Type := {
  a_text : str;
  a_start_index : Z;
  a_end_index : Z;
  a_token_count : Z;
  a_recursive_level : option Z;
  a_unexpected : list string
}.

(** The generated [__init__]: a keyword that names no field is refused.
    (Newer interpreters put the name of the class before [__init__] in the
    message.) *)
Definition new_RecursiveChunk (args : ChunkArgs) : result RecursiveChunk :=
  match a_unexpected args with
  | key :: _ =>
      Raise (TypeError
        (String.append "__init__() got an unexpected keyword argument '"
           (String.append key "'")))
  | [] =>
      Ok {| text := a_text args; start_index := a_start_index args;
            end_index := a_end_index args; token_count := a_token_count args;
            recursive_level := a_recursive_level args |}
  end.

(** ** chunker/recursive.py *)

(** [return_type : Literal["texts", "chunks"]]. *)
Inductive ReturnType : Type := Chunks | Texts.

(** The attributes [__init__] sets, apart from the constants [sep] and
    [_CHARS_PER_TOKEN] and the tokenizer of the base class. *)
Record RecursiveChunker : Type := {
  chunk_size : Z;
  min_characters_per_chunk : Z;
  return_type : ReturnType;
  rules : RecursiveRules
}.

(** [RecursiveChunker.__init__].  Both sides of the unresolved merge in the
    source raise [ValueError] for a [rules] argument of another class; here
    the type of [rules] excludes it. *)
Definition new_RecursiveChunker (chunk_size : Z) (rules : RecursiveRules)
    (min_characters_per_chunk : Z) (return_type : string)
    : result RecursiveChunker :=
  if chunk_size <=? 0 then
    Raise (ValueError "chunk_size must be greater than 0"%string)
  else if min_characters_per_chunk <=? 0 then
    Raise (ValueError "min_characters_per_chunk must be greater than 0"%string)
  else if String.eqb return_type "chunks" then
    Ok {| chunk_size := chunk_size;
          min_characters_per_chunk := min_characters_per_chunk;
          return_type := Chunks; rules := rules |}
  else if String.eqb return_type "texts" then
    Ok {| chunk_size := chunk_size;
          min_characters_per_chunk := min_characters_per_chunk;
          return_type := Texts; rules := rules |}
  else
    Raise (ValueError "return_type is invalid. Must be 'chunks' or 'texts'."%string).

(** [self.sep], the code point U+2704. *)
Definition sep_char : char := 9988%N.
Definition sep : str := [sep_char].

Definition space_char : char := 32%N.

(** [n // self._CHARS_PER_TOKEN] for [_CHARS_PER_TOKEN = 6.5].  6.5 is the
    binary fraction 13/2, and the floor division of an [int] below 2^52 by it
    is exact, so the value is the floor of [2n/13]. *)
Definition floordiv_chars_per_token (n : Z) : Z := 2 * n / 13.

(** The body of the short-split loop of [_split_text]: the state is
    [(current, merged)]. *)
Definition merge_short_step (min_chars : Z) (st : str * list str) (split : str)
    : str * list str :=
  let '(current, merged) := st in
  let '(current, merged) :=
    if len split <? min_chars then (current ++ split, merged)
    else if truthy current then ([], merged ++ [current ++ split])
    else (current, merged ++ [split]) in
  if len current >=? min_chars then ([], merged ++ [current])
  else (current, merged).

(** "Merge short splits": the loop and the final flush. *)
Definition merge_short (min_chars : Z) (splits : list str) : list str :=
  let '(current, merged) :=
    fold_left (merge_short_step min_chars) splits ([], []) in
  if truthy current then merged ++ [current] else merged.

(** What [_make_chunks] prints when the text is not found. *)
Definition index_error_message (text : str) : str :=
  lit "Error finding start and end index for text '" ++ text ++
  lit "' in full_text. Error: substring not found" ++
  lit "Setting start and end index to 0.".

(** The [try] block of [_make_chunks]: [start_index], [end_index] and the
    lines printed. *)
Definition find_offsets (text full_text : str) (last_chunk_end_index : Z)
    : Z * Z * list str :=
  match find text (slice_from full_text last_chunk_end_index) with
  | Some i =>
      let start_index := last_chunk_end_index + Z.of_nat i in
      let end_index := start_index + len text in
      (start_index, end_index, [])
  | None => (0, 0, [index_error_message text])
  end.

(** [_make_chunks]: what the call [RecursiveChunk(..., level=level)] gives,
    and the lines printed before it.  [level] is no field of the dataclass,
    so it reaches the constructor as an unexpected keyword. *)
Definition _make_chunks (text : str) (token_count : Z) (level : Z)
    (full_text : option str) (last_chunk_end_index : Z)
    : result RecursiveChunk * list str :=
  let full_text := match full_text with None => text | Some f => f end in
  let '(start_index, end_index, printed) :=
    find_offsets text full_text last_chunk_end_index in
  (new_RecursiveChunk
     {| a_text := text; a_start_index := start_index;
        a_end_index := end_index; a_token_count := token_count;
        a_recursive_level := None; a_unexpected := ["level"%string] |},
   printed).

Definition getr (l : list Z) (i : Z) : result Z :=
  match get l i with
  | Some v => Ok v
  | None => Raise (IndexError "list index out of range"%string)
  end.

(** The [while] loop of [_merge_splits].  With a positive [chunk_size] the
    index grows at every turn ([merge_loop_packed]), so [len(splits)] turns
    are enough; [OutOfFuel] marks a run that has not ended by then, which
    [__init__] excludes by refusing [chunk_size <= 0]. *)
Fixpoint merge_loop (fuel : nat) (chunk_size : Z) (splits : list str)
    (cumulative_token_counts : list Z) (combine_whitespace : bool)
    (current_index : Z) (merged : list str) (combined_token_counts : list Z)
    : result (list str * list Z) :=
  if current_index <? len splits then
    match fuel with
    | O => Raise OutOfFuel
    | S fuel' =>
        current_token_count <- getr cumulative_token_counts current_index ;;
        let required_token_count := current_token_count + chunk_size in
        pos <- bisect_left cumulative_token_counts required_token_count
                 current_index ;;
        let index := Z.min (pos - 1) (len splits) in
        let index := if index =? current_index then index + 1 else index in
        let merged :=
          merged ++ [join (if combine_whitespace then lit " " else [])
                          (slice splits current_index index)] in
        upto <- getr cumulative_token_counts (Z.min index (len splits)) ;;
        let combined_token_counts :=
          combined_token_counts ++ [upto - current_token_count] in
        merge_loop fuel' chunk_size splits cumulative_token_counts
          combine_whitespace index merged combined_token_counts
    end
  else Ok (merged, combined_token_counts).

(** [_merge_splits]. *)
Definition _merge_splits (self : RecursiveChunker) (splits : list str)
    (token_counts : list Z) (combine_whitespace : bool)
    : result (list str * list Z) :=
  if negb (truthy splits) || negb (truthy token_counts) then Ok ([], [])
  else if negb (len splits =? len token_counts) then
    Raise (ValueError
      "Number of splits does not match number of token counts"%string)
  else if forallb (fun counts => counts >? chunk_size self) token_counts then
    Ok (splits, token_counts)
  else
    let cumulative_token_counts :=
      if combine_whitespace
      then accumulate (fun x y => x + y + 1) (0 :: token_counts)
      else accumulate Z.add (0 :: token_counts) in
    merge_loop (length splits) (chunk_size self) splits
      cumulative_token_counts combine_whitespace 0 [] [].

(** An element of the sequence [chunk] returns: a [RecursiveChunk] when
    [return_type] is ["chunks"], a [str] when it is ["texts"]. *)
Inductive item : Type :=
| ItemChunk (c : RecursiveChunk)
| ItemText (s : str).

(** [chunks[-1].end_index]. *)
Definition item_end_index (it : item) : result Z :=
  match it with
  | ItemChunk c => Ok (end_index c)
  | ItemText _ =>
      Raise (AttributeError "'str' object has no attribute 'end_index'"%string)
  end.

(** The token windows of [_split_text]:
    [[encoded[i : i + chunk_size] for i in range(0, len(encoded), chunk_size)]]. *)
Definition token_windows {A} (encoded : list A) (chunk_size : Z)
    : result (list (list A)) :=
  starts <- range0 (len encoded) chunk_size ;;
  Ok (map (fun i => slice encoded i (i + chunk_size)) starts).

(** [curr_rule.delimiters is None and not curr_rule.whitespace]. *)
Definition no_delimiters_no_whitespace (curr_rule : RecursiveLevel)
    : result bool :=
  delimiters <- getattr curr_rule "delimiters" ;;
  if attr_is_none delimiters then
    whitespace <- getattr curr_rule "whitespace" ;;
    Ok (negb (attr_truthy whitespace))
  else Ok false.

(** [curr_rule.delimiters is None and curr_rule.whitespace]. *)
Definition no_delimiters_whitespace (curr_rule : RecursiveLevel)
    : result bool :=
  delimiters <- getattr curr_rule "delimiters" ;;
  if attr_is_none delimiters then
    whitespace <- getattr curr_rule "whitespace" ;;
    Ok (attr_truthy whitespace)
  else Ok false.

Section Tokenizer.

(** The tokenizer [BaseChunker] holds in [self.tokenizer]. *)
Variable token : Type.
Variable count_tokens : str -> Z.
Variable encode : str -> list token.
Variable decode_batch : list (list token) -> list str.

(** [_estimate_token_count], without the [lru_cache] around it (a cache hit
    returns what the body returned before, and calls nothing).  The second
    component lists the texts handed to [tokenizer.count_tokens]. *)
Definition _estimate_token_count (self : RecursiveChunker) (text : str)
    : Z * list str :=
  let estimate := Z.max 1 (floordiv_chars_per_token (len text)) in
  if estimate >? chunk_size self then (chunk_size self + 1, [])
  else (count_tokens text, [text]).

Definition estimate (self : RecursiveChunker) (text : str) : Z :=
  fst (_estimate_token_count self text).

(** [_split_text].  The level is read under the names [whitespace],
    [delimiters] and [include_delim]. *)
Definition _split_text (self : RecursiveChunker) (text : str)
    (recursive_level : RecursiveLevel) : result (list str) :=
  whitespace <- getattr recursive_level "whitespace" ;;
  if attr_truthy whitespace then Ok (split space_char text)
  else
    delimiters <- getattr recursive_level "delimiters" ;;
    if attr_truthy delimiters then
      include_delim <- getattr recursive_level "include_delim" ;;
      ds <- attr_iter delimiters ;;
      let text :=
        if attr_eq_str include_delim (lit "prev") then
          fold_left (fun text delimiter => replace delimiter (delimiter ++ sep) text)
                    ds text
        else if attr_eq_str include_delim (lit "next") then
          fold_left (fun text delimiter => replace delimiter (sep ++ delimiter) text)
                    ds text
        else
          fold_left (fun text delimiter => replace delimiter sep text) ds text in
      let splits :=
        filter (fun split => negb (str_eqb split [])) (split sep_char text) in
      Ok (merge_short (min_characters_per_chunk self) splits)
    else
      token_splits <- token_windows (encode text) (chunk_size self) ;;
      Ok (decode_batch token_splits).

Section Driver.

(** The method [_recursive_chunk] calls for an over-budget fragment. *)
Variable _chunk_helper : str -> Z -> option str -> result (list item).

(** The [for] loop of [_recursive_chunk] over [zip(merged,
    combined_token_counts)]; [chunks] and [last_chunk_end_index] are the
    loop's variables. *)
Fixpoint chunk_loop (self : RecursiveChunker) (level : Z) (full_text : str)
    (curr_rule : RecursiveLevel) (merged : list str)
    (pairs : list (str * Z)) (chunks : list item) (last_chunk_end_index : Z)
    : result (list item) :=
  match pairs with
  | [] => Ok chunks
  | (split, token_count) :: rest =>
      if token_count >? chunk_size self then
        sub <- _chunk_helper split (level + 1) (Some full_text) ;;
        chunk_loop self level full_text curr_rule merged rest
          (chunks ++ sub) last_chunk_end_index
      else
        match return_type self with
        | Chunks =>
            last_chunk_end_index <-
              match last_of chunks with
              | None => Ok last_chunk_end_index
              | Some it => item_end_index it
              end ;;
            no_delim <- no_delimiters_no_whitespace curr_rule ;;
            made <- fst (_make_chunks split token_count level
                           (Some (if no_delim then join [] merged else full_text))
                           last_chunk_end_index) ;;
            chunk_loop self level full_text curr_rule merged rest
              (chunks ++ [ItemChunk made]) last_chunk_end_index
        | Texts =>
            chunk_loop self level full_text curr_rule merged rest
              (chunks ++ [ItemText split]) last_chunk_end_index
        end
  end.

(** The body of [_recursive_chunk]. *)
Definition _recursive_chunk_body (self : RecursiveChunker) (text : str)
    (level : Z) (full_text : option str) : result (list item) :=
  if negb (truthy text) then Ok []
  else
    n <- rules_len (rules self) ;;
    if level >=? n then
      match return_type self with
      | Texts => Ok [ItemText text]
      | Chunks =>
          made <- fst (_make_chunks text (estimate self text) level
                         full_text 0) ;;
          Ok [ItemChunk made]
      end
    else
      let full_text := match full_text with None => text | Some f => f end in
      curr_rule <- rules_getitem (rules self) level ;;
      splits <- _split_text self text curr_rule ;;
      let token_counts := map (estimate self) splits in
      token_level <- no_delimiters_no_whitespace curr_rule ;;
      '(merged, combined_token_counts) <-
        (if token_level then Ok (splits, token_counts)
         else
           whitespace_level <- no_delimiters_whitespace curr_rule ;;
           if whitespace_level then _merge_splits self splits token_counts true
           else _merge_splits self splits token_counts false) ;;
      chunk_loop self level full_text curr_rule merged
        (combine merged combined_token_counts) [] 0.

End Driver.

(** Modelled from the spec: [_chunk_helper] is called by [_recursive_chunk]
    and defined nowhere under src/.  The spec's Recursive Driver says of an
    over-budget merged fragment: "recurse with level + 1 on that fragment's
    text (same full document reference, for offset recovery)"; so
    [_chunk_helper] is taken to be [_recursive_chunk] itself.  A call nests
    one level deeper each time and stops at [len(self.rules)]; [fuel] bounds
    the nesting. *)
Fixpoint _recursive_chunk (fuel : nat) (self : RecursiveChunker) (text : str)
    (level : Z) (full_text : option str) : result (list item) :=
  _recursive_chunk_body
    (match fuel with
     | O => fun _ _ _ => Raise OutOfFuel
     | S fuel' => _recursive_chunk fuel' self
     end)
    self text level full_text.

(** [chunk].  The nesting of the driver's calls is bounded by the number of
    levels: the call at depth [len(self.rules)] is terminal. *)
Definition chunk (self : RecursiveChunker) (text : str) : result (list item) :=
  let depth := match rules self with
               | RulesList l => length l
               | RulesLevel _ => O
               end in
  _recursive_chunk depth self text 0 (Some text).

End Tokenizer.

(** * Vocabulary of the properties *)

(** A chunker configuration used in the examples: [chunk_size],
    [min_characters_per_chunk], [return_type], the list of levels. *)
Definition chunker_of (size min_chars : Z) (rt : ReturnType)
    (levels : list RecursiveLevel) : RecursiveChunker :=
  {| chunk_size := size; min_characters_per_chunk := min_chars;
     return_type := rt; rules := RulesList levels |}.

(** A character-level tokenizer: one token per code point. *)
Definition char_count_tokens : str -> Z := len.
Definition char_encode : str -> list char := fun s => s.
Definition char_decode_batch : list (list char) -> list str := fun l => l.

(** C7, as the spec words it: the short-circuit is taken exactly when
    [len(text) / 6.5 > chunk_size], that is when
    [2 * len(text) > 13 * chunk_size]. *)
Definition estimator_as_stated (count_tokens : str -> Z)
    (self : RecursiveChunker) (text : str) : Prop :=
  (13 * chunk_size self < 2 * len text ->
   _estimate_token_count count_tokens self text = (chunk_size self + 1, [])) /\
  (2 * len text <= 13 * chunk_size self ->
   _estimate_token_count count_tokens self text = (count_tokens text, [text])).

(** The loop invariant of the short-split merge: [merged] holds the
    concatenations of the groups flushed so far, [current] the concatenation
    of the group being filled, and the groups, laid end to end, are the
    fragments read so far. *)
Definition merge_short_inv (st : str * list str) (processed : list str) : Prop :=
  exists groups cur_group,
    snd st = map (@concat char) groups /\
    fst st = concat cur_group /\
    concat groups ++ cur_group = processed /\
    Forall (fun s => s <> []) cur_group.

(** The index the loop body of [_merge_splits] moves to from [current],
    given the position [pos] that [bisect_left] returned. *)
Definition next_index (n current pos : Z) : Z :=
  if Z.min (pos - 1) n =? current then Z.min (pos - 1) n + 1
  else Z.min (pos - 1) n.

(** One turn of the loop, from index [i] to index [j]: the group [g] of
    fragments it joins and the token count [c] it records. *)
Definition group_at (size : Z) (splits : list str) (cum : list Z)
    (i j : Z) (g : list str) (c : Z) : Prop :=
  0 <= i < j /\ j <= len splits /\
  g = slice splits i j /\
  exists vi vj pos,
    get cum i = Some vi /\ get cum j = Some vj /\ c = vj - vi /\
    bisect_left cum (vi + size) i = Ok pos /\
    j = next_index (len splits) i pos.

(** The turns of the loop from index [i] to the end of [splits]. *)
Inductive packed (size : Z) (splits : list str) (cum : list Z)
    : Z -> list (list str) -> list Z -> Prop :=
| packed_done : packed size splits cum (len splits) [] []
| packed_step (i j : Z) (g : list str) (c : Z) groups counts :
    group_at size splits cum i j g c ->
    packed size splits cum j groups counts ->
    packed size splits cum i (g :: groups) (c :: counts).

(** A level that splits on commas and drops them. *)
Definition drop_commas : RecursiveLevel :=
  {| whitespace_delimiter := false;
     custom_delimiters := Some (DelimList [lit ","]);
     include_delim := NoInclude |}.

(** C5, as the spec words it.  [run_within budget join_cost counts] is the
    number of leading fragments that fit in [budget], each costing its count
    plus [join_cost]. *)
Fixpoint run_within (budget join_cost : Z) (counts : list Z) : nat :=
  match counts with
  | [] => O
  | c :: rest =>
      if c + join_cost <=? budget
      then S (run_within (budget - (c + join_cost)) join_cost rest)
      else O
  end.

(** The size of the group that starts at the head of [counts]: the maximal
    run whose cumulative count, plus one per join when joining with a space,
    does not exceed [size]; at least one fragment. *)
Definition group_size_as_stated (size : Z) (combine_whitespace : bool)
    (counts : list Z) : nat :=
  match counts with
  | [] => O
  | c :: rest =>
      S (if c <=? size
         then run_within (size - c) (if combine_whitespace then 1 else 0) rest
         else O)
  end.

(** The merged fragments of C5: maximal groups, one after the other. *)
Fixpoint merged_as_stated (fuel : nat) (size : Z) (combine_whitespace : bool)
    (splits : list str) (counts : list Z) : list str :=
  match fuel with
  | O => []
  | S fuel' =>
      match counts with
      | [] => []
      | _ :: _ =>
          let k := group_size_as_stated size combine_whitespace counts in
          join (if combine_whitespace then lit " " else []) (firstn k splits)
          :: merged_as_stated fuel' size combine_whitespace
               (skipn k splits) (skipn k counts)
      end
  end.

(** * More of the types: iteration and the dictionary forms *)

(** [RecursiveRules.__iter__]: the levels in order; a bare level cannot be
    iterated. *)
Definition rules_iter (rules : RecursiveRules) : result (list RecursiveLevel) :=
  match rules with
  | RulesList l => Ok l
  | RulesLevel _ =>
      Raise (TypeError
        "Levels must be a list of RecursiveLevel objects to use iteration."%string)
  end.

(** The dictionary [RecursiveLevel.to_dict] returns and
    [RecursiveLevel.from_dict] takes, read as the keyword arguments that
    [from_dict] unpacks it into: the key of a field is absent or holds a value of the
    field's declared type; [d_unexpected] lists the keys that name no
    field. *)
Record LevelDict : Type := {
  d_whitespace_delimiter : option bool;
  d_custom_delimiters : option (option Delimiters);
  d_include_delim : option IncludeDelim;
  d_unexpected : list string
}.

(** [RecursiveLevel.to_dict]: [self.__dict__.copy()]. *)
Definition RecursiveLevel_to_dict (self : RecursiveLevel) : LevelDict :=
  {| d_whitespace_delimiter := Some (whitespace_delimiter self);
     d_custom_delimiters := Some (custom_delimiters self);
     d_include_delim := Some (include_delim self);
     d_unexpected := [] |}.

Definition or_default {A} (o : option A) (default : A) : A :=
  match o with Some a => a | None => default end.

(** [RecursiveLevel.from_dict]: [cls] called with [data] unpacked as
    keyword arguments.  A key that names no field
    is refused by the generated [__init__]; an absent key takes the field's
    default; [__post_init__] validates. *)
Definition RecursiveLevel_from_dict (data : LevelDict) : result RecursiveLevel :=
  match d_unexpected data with
  | _ :: _ =>
      Raise (TypeError "__init__() got an unexpected keyword argument"%string)
  | [] =>
      new_RecursiveLevel (or_default (d_whitespace_delimiter data) false)
                         (or_default (d_custom_delimiters data) None)
                         (or_default (d_include_delim data) Prev)
  end.

(** The value under the key ["levels"] of a rules dictionary: [None], the
    dictionary of one level, a list of such dictionaries, or a value of
    another type. *)
Inductive LevelsEntry : Type :=
| EntryNone
| EntryDict (d : LevelDict)
| EntryList (l : list LevelDict)
| EntryOther.

(** The dictionary of [RecursiveRules]: the key ["levels"], absent or
    present, and the other keys. *)
Record RulesDict : Type := {
  d_levels : option LevelsEntry;
  d_others : list string
}.

(** [RecursiveRules.to_dict].  Its [else] branch, for [levels] that is
    neither a level nor a list, cannot be reached once [__post_init__] has
    run. *)
Definition RecursiveRules_to_dict (self : RecursiveRules) : RulesDict :=
  match self with
  | RulesLevel level =>
      {| d_levels := Some (EntryDict (RecursiveLevel_to_dict level));
         d_others := [] |}
  | RulesList levels =>
      {| d_levels := Some (EntryList (map RecursiveLevel_to_dict levels));
         d_others := [] |}
  end.

(** The list comprehension of [from_dict]: the first failure ends it. *)
Fixpoint levels_from_dicts (dicts : list LevelDict)
    : result (list RecursiveLevel) :=
  match dicts with
  | [] => Ok []
  | d :: rest =>
      level <- RecursiveLevel_from_dict d ;;
      levels <- levels_from_dicts rest ;;
      Ok (level :: levels)
  end.

(** [RecursiveRules.from_dict].  [data.pop("levels")] raises [KeyError] when
    the key is absent, which is [None] here, and otherwise removes the key
    from the caller's dictionary: the second component is [data] after the
    call. *)
Definition RecursiveRules_from_dict (data : RulesDict)
    : option (result RecursiveRules * RulesDict) :=
  match d_levels data with
  | None => None
  | Some dict_levels =>
      let data' := {| d_levels := None; d_others := d_others data |} in
      let object_levels :=
        match dict_levels with
        | EntryNone => Ok None
        | EntryDict d =>
            level <- RecursiveLevel_from_dict d ;; Ok (Some (RulesLevel level))
        | EntryList l =>
            levels <- levels_from_dicts l ;; Ok (Some (RulesList levels))
        | EntryOther => Ok None
        end in
      Some (levels <- object_levels ;; new_RecursiveRules levels, data')
  end.

(** * More vocabulary *)

(** [sum(l)]. *)
Definition total (l : list Z) : Z := fold_right Z.add 0 l.

(** All the elements of a list but the last. *)
Definition but_last {A} (l : list A) : list A := removelast l.

(** The two errors the chunker runs into: the read of an attribute that
    [RecursiveLevel] does not have, and the keyword that [RecursiveChunk]
    does not accept. *)
Definition no_attribute_whitespace : exn :=
  AttributeError "'RecursiveLevel' object has no attribute 'whitespace'".
Definition unexpected_keyword_level : exn :=
  TypeError "__init__() got an unexpected keyword argument 'level'".

(** The last of the default levels: no delimiters, no whitespace. *)
Definition token_level : RecursiveLevel :=
  {| whitespace_delimiter := false; custom_delimiters := None;
     include_delim := Prev |}.

(** * Properties *)

(** ** The level rule *)

Lemma str_eqb_eq (a b : str) : str_eqb a b = true <-> a = b.
Proof.
  unfold str_eqb. destruct (list_eq_dec N.eq_dec a b); split; congruence.
Qed.

Lemma str_eqb_neq (a b : str) : str_eqb a b = false <-> a <> b.
Proof.
  unfold str_eqb. destruct (list_eq_dec N.eq_dec a b); split; congruence.
Qed.

(** A single space inside a list of delimiters is refused. *)
Lemma validate_list_with_space (ws : bool) (l : list str) (incl : IncludeDelim) :
  In (lit " ") l ->
  exists e, new_RecursiveLevel ws (Some (DelimList l)) incl = Raise e.
Proof.
  intros Hin. unfold new_RecursiveLevel, _validate_fields. simpl.
  destruct ws; simpl; [eexists; reflexivity|].
  destruct (existsb (fun delim => len delim =? 0) l); simpl;
    [eexists; reflexivity|].
  assert (Hsp : existsb (fun delim => str_eqb delim (lit " ")) l = true).
  { apply existsb_exists. exists (lit " "). split; [exact Hin|].
    now apply str_eqb_eq. }
  rewrite Hsp. simpl. eexists; reflexivity.
Qed.

(** C8: a level rule whose delimiters are given as the single string [" "]
    is accepted: [_validate_fields] looks for the single space only among
    the members of a list. *)
Theorem single_space_string_accepted :
  new_RecursiveLevel false (Some (DelimStr (lit " "))) Prev
  = Ok {| whitespace_delimiter := false;
          custom_delimiters := Some (DelimStr (lit " "));
          include_delim := Prev |}.
Proof. reflexivity. Qed.

(** ** The token count estimator *)

(** C7 (counterexample): seven characters and [chunk_size = 1].  7 / 6.5
    exceeds 1, yet [7 // 6.5 = 1] does not, and the tokenizer is asked. *)
Lemma estimator_as_stated_fails :
  ~ estimator_as_stated (fun _ => 1) (chunker_of 1 1 Chunks []) (lit "abcdefg").
Proof.
  intros [H _].
  assert (Hlt : 13 * chunk_size (chunker_of 1 1 Chunks []) < 2 * len (lit "abcdefg"))
    by (vm_compute; reflexivity).
  specialize (H Hlt). vm_compute in H. discriminate H.
Qed.

(** C7 (amended): with [estimate = max(1, len(text) // 6.5)], the estimator
    returns [chunk_size + 1] without a tokenizer call when
    [estimate > chunk_size], and the tokenizer's count, from one call on the
    text, otherwise. *)
Theorem estimate_token_count_two_tier (count_tokens : str -> Z)
    (self : RecursiveChunker) (text : str) :
  (chunk_size self < Z.max 1 (floordiv_chars_per_token (len text)) ->
   _estimate_token_count count_tokens self text = (chunk_size self + 1, [])) /\
  (Z.max 1 (floordiv_chars_per_token (len text)) <= chunk_size self ->
   _estimate_token_count count_tokens self text = (count_tokens text, [text])).
Proof.
  unfold _estimate_token_count.
  destruct (Z.gtb_spec (Z.max 1 (floordiv_chars_per_token (len text)))
              (chunk_size self)); split; intros Hcmp; try reflexivity; lia.
Qed.

Lemma estimate_token_count_two_tier_witness :
  (chunk_size (chunker_of 1 1 Chunks [])
   < Z.max 1 (floordiv_chars_per_token (len (lit "abcdefghijklm"))) /\
   _estimate_token_count (fun _ => 1) (chunker_of 1 1 Chunks [])
     (lit "abcdefghijklm") = (2, [])) /\
  (Z.max 1 (floordiv_chars_per_token (len (lit "abcdefg")))
   <= chunk_size (chunker_of 1 1 Chunks []) /\
   _estimate_token_count (fun _ => 1) (chunker_of 1 1 Chunks [])
     (lit "abcdefg") = (1, [lit "abcdefg"])).
Proof.
  split.
  - split; [reflexivity|].
    apply (proj1 (estimate_token_count_two_tier (fun _ => 1)
                    (chunker_of 1 1 Chunks []) (lit "abcdefghijklm"))).
    reflexivity.
  - split; [discriminate|].
    apply (proj2 (estimate_token_count_two_tier (fun _ => 1)
                    (chunker_of 1 1 Chunks []) (lit "abcdefg"))).
    discriminate.
Defined.

(** The floor is the one of the exact quotient by 13/2. *)
Lemma floordiv_chars_per_token_spec (n : Z) :
  13 * floordiv_chars_per_token n <= 2 * n < 13 * (floordiv_chars_per_token n + 1).
Proof.
  unfold floordiv_chars_per_token.
  pose proof (Z.div_mod (2 * n) 13 ltac:(lia)).
  pose proof (Z.mod_pos_bound (2 * n) 13 ltac:(lia)). lia.
Qed.

(** ** Chunk creation *)

Lemma make_chunks_raises (text : str) (token_count level : Z)
    (full_text : option str) (last_chunk_end_index : Z) :
  fst (_make_chunks text token_count level full_text last_chunk_end_index)
  = Raise unexpected_keyword_level.
Proof.
  unfold _make_chunks.
  destruct (find_offsets text _ last_chunk_end_index) as [[s e] printed].
  reflexivity.
Qed.

(** C9: when the fragment's text is not found in the search text from the
    previous chunk's end on, the [try] block of [_make_chunks] sets both
    offsets to 0 and prints one line; the call of the constructor that
    follows raises [TypeError], so [_make_chunks] raises and returns no
    chunk. *)
Theorem make_chunks_not_found_raises (text : str) (token_count level : Z)
    (full_text : option str) (last_chunk_end_index : Z) :
  let search := match full_text with None => text | Some f => f end in
  find text (slice_from search last_chunk_end_index) = None ->
  find_offsets text search last_chunk_end_index
  = (0, 0, [index_error_message text]) /\
  _make_chunks text token_count level full_text last_chunk_end_index
  = (Raise unexpected_keyword_level, [index_error_message text]).
Proof.
  intros search Hnone.
  assert (Hoff : find_offsets text search last_chunk_end_index
                 = (0, 0, [index_error_message text])).
  { unfold find_offsets. now rewrite Hnone. }
  split; [exact Hoff|]. unfold _make_chunks. fold search. now rewrite Hoff.
Qed.

Lemma make_chunks_not_found_raises_witness :
  find (lit "b,") (slice_from (lit "a,b") 2) = None /\
  find_offsets (lit "b,") (lit "a,b") 2 = (0, 0, [index_error_message (lit "b,")]) /\
  _make_chunks (lit "b,") 1 0 (Some (lit "a,b")) 2
  = (Raise unexpected_keyword_level, [index_error_message (lit "b,")]).
Proof.
  split; [reflexivity|].
  apply (make_chunks_not_found_raises (lit "b,") 1 0 (Some (lit "a,b")) 2).
  reflexivity.
Defined.

(** ** The packer *)

Lemma forallb_gtb (size : Z) (l : list Z) :
  Forall (fun c => size < c) l -> forallb (fun c => c >? size) l = true.
Proof.
  induction 1 as [|c l Hc _ IH]; simpl; [reflexivity|].
  rewrite IH, andb_true_r. apply Z.gtb_lt. exact Hc.
Qed.

(** C6: when every token count exceeds [chunk_size], [_merge_splits] returns
    the two lists it was given. *)
Theorem merge_splits_all_over_budget (self : RecursiveChunker)
    (splits : list str) (token_counts : list Z) (combine_whitespace : bool) :
  length splits = length token_counts ->
  Forall (fun c => chunk_size self < c) token_counts ->
  _merge_splits self splits token_counts combine_whitespace
  = Ok (splits, token_counts).
Proof.
  intros Hlen Hall. unfold _merge_splits.
  assert (Hl : len splits = len token_counts) by (unfold len; now rewrite Hlen).
  rewrite Hl, Z.eqb_refl, (forallb_gtb _ _ Hall).
  destruct splits as [|s splits], token_counts as [|c token_counts];
    simpl in Hlen; try discriminate; reflexivity.
Qed.

Lemma merge_splits_all_over_budget_witness :
  length [lit "alpha"; lit "beta"] = length [7; 9] /\
  Forall (fun c => chunk_size (chunker_of 5 1 Chunks []) < c) [7; 9] /\
  _merge_splits (chunker_of 5 1 Chunks []) [lit "alpha"; lit "beta"] [7; 9] true
  = Ok ([lit "alpha"; lit "beta"], [7; 9]).
Proof.
  split; [reflexivity|]. split; [repeat constructor|].
  apply (merge_splits_all_over_budget (chunker_of 5 1 Chunks [])
           [lit "alpha"; lit "beta"] [7; 9] true).
  - reflexivity.
  - repeat constructor.
Defined.

(** ** The splitter: merging short splits *)

Lemma concat_concat {A} (ll : list (list (list A))) :
  concat (map (@concat A) ll) = concat (concat ll).
Proof.
  induction ll as [|l ll IH]; simpl; [reflexivity|].
  now rewrite concat_app, IH.
Qed.

Lemma truthy_false {A} (l : list A) : truthy l = false -> l = [].
Proof. destruct l; [reflexivity|discriminate]. Qed.

Lemma concat_nonempty_nil (g : list str) :
  Forall (fun s => s <> []) g -> concat g = [] -> g = [].
Proof.
  destruct g as [|s g]; [reflexivity|]. intros Hne Hc. exfalso.
  apply Forall_inv in Hne. simpl in Hc. apply app_eq_nil in Hc. tauto.
Qed.

Lemma merge_short_step_inv (min_chars : Z) (st : str * list str)
    (processed : list str) (split : str) :
  split <> [] ->
  merge_short_inv st processed ->
  merge_short_inv (merge_short_step min_chars st split) (processed ++ [split]).
Proof.
  intros Hne (groups & cur & Hm & Hc & Hp & Hcur).
  destruct st as [current merged]. simpl in Hm, Hc. subst merged current processed.
  assert (Hflush : forall groups1 cur1 current1 merged1,
    merged1 = map (@concat char) groups1 ->
    current1 = concat cur1 ->
    concat groups1 ++ cur1 = (concat groups ++ cur) ++ [split] ->
    Forall (fun s => s <> []) cur1 ->
    merge_short_inv
      (if len current1 >=? min_chars
       then ([], merged1 ++ [current1])
       else (current1, merged1))
      ((concat groups ++ cur) ++ [split])).
  { intros groups1 cur1 current1 merged1 -> -> Hp1 Hne1.
    destruct (len (concat cur1) >=? min_chars).
    - exists (groups1 ++ [cur1]), []. simpl. repeat split.
      + now rewrite map_app.
      + rewrite concat_app. simpl. now rewrite !app_nil_r.
      + constructor.
    - exists groups1, cur1. simpl. repeat split; assumption. }
  unfold merge_short_step.
  destruct (len split <? min_chars).
  - apply (Hflush groups (cur ++ [split])).
    + reflexivity.
    + rewrite concat_app. simpl. now rewrite app_nil_r.
    + now rewrite !app_assoc.
    + apply Forall_app. split; [assumption|]. now constructor.
  - destruct (truthy (concat cur)) eqn:Ht.
    + apply (Hflush (groups ++ [cur ++ [split]]) []).
      * rewrite map_app. simpl. rewrite concat_app. simpl.
        now rewrite app_nil_r.
      * reflexivity.
      * rewrite concat_app. simpl. now rewrite !app_nil_r, !app_assoc.
      * constructor.
    + apply truthy_false in Ht. rewrite Ht.
      assert (cur = []) by now apply concat_nonempty_nil. subst cur.
      apply (Hflush (groups ++ [[split]]) []).
      * rewrite map_app. simpl. now rewrite app_nil_r.
      * reflexivity.
      * rewrite concat_app. simpl. now rewrite !app_nil_r.
      * constructor.
Qed.

Lemma merge_short_fold_inv (min_chars : Z) (splits : list str) :
  forall st processed,
  Forall (fun s => s <> []) splits ->
  merge_short_inv st processed ->
  merge_short_inv (fold_left (merge_short_step min_chars) splits st)
                  (processed ++ splits).
Proof.
  induction splits as [|split splits IH]; intros st processed Hne Hinv; simpl.
  - now rewrite app_nil_r.
  - inversion Hne as [|? ? Hs Hrest]; subst.
    replace (processed ++ split :: splits) with ((processed ++ [split]) ++ splits)
      by now rewrite <- app_assoc.
    apply IH; [assumption|]. now apply merge_short_step_inv.
Qed.

Lemma merge_short_groups (min_chars : Z) (splits : list str) :
  Forall (fun s => s <> []) splits ->
  exists groups,
    concat groups = splits /\
    merge_short min_chars splits = map (@concat char) groups.
Proof.
  intros Hne. unfold merge_short.
  destruct (merge_short_fold_inv min_chars splits ([], []) [] Hne)
    as (groups & cur & Hm & Hc & Hp & Hcur).
  { exists [], []. simpl. repeat split. constructor. }
  destruct (fold_left (merge_short_step min_chars) splits ([], []))
    as [current merged]. simpl in Hm, Hc, Hp. subst merged current.
  destruct (truthy (concat cur)) eqn:Ht.
  - exists (groups ++ [cur]). split.
    + rewrite concat_app. simpl. now rewrite app_nil_r.
    + now rewrite map_app.
  - apply truthy_false in Ht.
    assert (cur = []) by now apply concat_nonempty_nil. subst cur.
    exists groups. split; [now rewrite app_nil_r in Hp|reflexivity].
Qed.

Lemma merge_short_concat (min_chars : Z) (splits : list str) :
  Forall (fun s => s <> []) splits ->
  concat (merge_short min_chars splits) = concat splits.
Proof.
  intros Hne. destruct (merge_short_groups min_chars splits Hne) as (g & Hg & Hm).
  rewrite Hm, concat_concat. f_equal. exact Hg.
Qed.

(** C10: on the non-empty fragments that delimiter-mode splitting yields,
    and for a positive [min_characters_per_chunk], the short-split merge
    cuts the fragment list into consecutive groups and emits the
    concatenation of each group, in order; so the merged fragments
    concatenate to what the input fragments concatenate to. *)
Theorem merge_short_preserves_content (min_chars : Z) (splits : list str) :
  0 < min_chars ->
  Forall (fun s => s <> []) splits ->
  (exists groups,
     concat groups = splits /\
     merge_short min_chars splits = map (@concat char) groups) /\
  concat (merge_short min_chars splits) = concat splits.
Proof.
  intros _ Hne. split.
  - now apply merge_short_groups.
  - now apply merge_short_concat.
Qed.

Lemma merge_short_preserves_content_witness :
  0 < 3 /\
  Forall (fun s => s <> []) [lit "a,"; lit "bcd,"; lit "e"] /\
  (exists groups,
     concat groups = [lit "a,"; lit "bcd,"; lit "e"] /\
     merge_short 3 [lit "a,"; lit "bcd,"; lit "e"] = map (@concat char) groups) /\
  concat (merge_short 3 [lit "a,"; lit "bcd,"; lit "e"])
  = concat [lit "a,"; lit "bcd,"; lit "e"].
Proof.
  split; [lia|]. split; [repeat constructor; discriminate|].
  apply (merge_short_preserves_content 3 [lit "a,"; lit "bcd,"; lit "e"]).
  - lia.
  - repeat constructor; discriminate.
Defined.

(** ** Facts about the built-ins *)

Lemma join_cons (sep0 x y : str) (l : list str) :
  join sep0 (x :: y :: l) = x ++ sep0 ++ join sep0 (y :: l).
Proof. reflexivity. Qed.

Lemma startswith_split (p s : str) :
  startswith p s = true -> s = p ++ skipn (length p) s.
Proof.
  revert s. induction p as [|a p IH]; intros s H; [reflexivity|].
  destruct s as [|b s]; simpl in H; [discriminate|].
  apply andb_true_iff in H. destruct H as [Hab Hp].
  apply N.eqb_eq in Hab. subst b. simpl. f_equal. now apply IH.
Qed.

(** *** Indexing, slicing, [accumulate] and [bisect_left] *)

Lemma len_nonneg {A} (l : list A) : 0 <= len l.
Proof. unfold len. lia. Qed.

Lemma len_app {A} (a b : list A) : len (a ++ b) = len a + len b.
Proof. unfold len. rewrite length_app. lia. Qed.

Lemma get_nonneg {A} (l : list A) (i : Z) :
  0 <= i -> get l i = nth_error l (Z.to_nat i).
Proof. intros H. unfold get. destruct (Z.ltb_spec i 0); [lia|reflexivity]. Qed.

Lemma get_in_range {A} (l : list A) (i : Z) :
  0 <= i < len l -> exists v, get l i = Some v.
Proof.
  intros H. rewrite get_nonneg by lia.
  destruct (nth_error l (Z.to_nat i)) eqn:E; [eauto|].
  apply nth_error_None in E. unfold len in H. lia.
Qed.

Lemma slice_in_range {A} (l : list A) (i j : Z) :
  0 <= i <= j -> j <= len l ->
  slice l i j = firstn (Z.to_nat (j - i)) (skipn (Z.to_nat i) l).
Proof.
  intros Hi Hj. unfold slice, clamp.
  destruct (Z.ltb_spec i 0); [lia|]. destruct (Z.ltb_spec j 0); [lia|].
  now rewrite !Z.min_l by lia.
Qed.

Lemma slice_app_skipn {A} (l : list A) (i j : Z) :
  0 <= i <= j -> j <= len l ->
  slice l i j ++ skipn (Z.to_nat j) l = skipn (Z.to_nat i) l.
Proof.
  intros Hi Hj. rewrite slice_in_range by assumption.
  replace (Z.to_nat j) with (Z.to_nat (j - i) + Z.to_nat i)%nat by lia.
  rewrite <- skipn_skipn. apply firstn_skipn.
Qed.

Lemma length_accumulate_from {A} (f : A -> A -> A) (l : list A) (acc : A) :
  length (accumulate_from f acc l) = S (length l).
Proof.
  revert acc. induction l as [|x l IH]; intros acc; simpl; [reflexivity|].
  now rewrite IH.
Qed.

Lemma len_accumulate {A} (f : A -> A -> A) (x : A) (l : list A) :
  len (accumulate f (x :: l)) = len l + 1.
Proof. unfold len. simpl. rewrite length_accumulate_from. lia. Qed.

Lemma bisect_loop_range (a : list Z) (x : Z) (fuel : nat) :
  forall lo hi, lo <= hi -> lo <= bisect_loop fuel a x lo hi <= hi.
Proof.
  induction fuel as [|fuel IH]; intros lo hi Hle; simpl; [lia|].
  destruct (Z.ltb_spec lo hi); [|lia].
  assert (Hmid : lo <= (lo + hi) / 2 < hi).
  { split; [apply Z.div_le_lower_bound|apply Z.div_lt_upper_bound]; lia. }
  destruct (get a ((lo + hi) / 2)) as [v|]; [|lia].
  destruct (v <? x).
  - specialize (IH ((lo + hi) / 2 + 1) hi ltac:(lia)). lia.
  - specialize (IH lo ((lo + hi) / 2) ltac:(lia)). lia.
Qed.

(** The search leaves its starting position when the element there is
    below the target. *)
Lemma bisect_loop_leaves (a : list Z) (x lo0 v : Z) :
  0 <= lo0 -> get a lo0 = Some v -> v < x ->
  forall fuel hi,
  lo0 < hi <= len a -> hi - lo0 <= Z.of_nat fuel ->
  lo0 < bisect_loop fuel a x lo0 hi.
Proof.
  intros H0 Hget Hv. induction fuel as [|fuel IH]; intros hi Hhi Hfuel;
    [simpl in Hfuel; lia|].
  cbn [bisect_loop]. destruct (Z.ltb_spec lo0 hi); [|lia].
  assert (Hmid : lo0 <= (lo0 + hi) / 2 < hi).
  { split; [apply Z.div_le_lower_bound|apply Z.div_lt_upper_bound]; lia. }
  destruct (get_in_range a ((lo0 + hi) / 2) ltac:(lia)) as [w Hw].
  cbv zeta. rewrite Hw.
  destruct (Z.ltb_spec w x).
  - pose proof (bisect_loop_range a x fuel ((lo0 + hi) / 2 + 1) hi ltac:(lia)).
    lia.
  - assert (lo0 <> (lo0 + hi) / 2).
    { intros E. rewrite <- E, Hget in Hw. injection Hw as Hw. lia. }
    apply IH; lia.
Qed.

Lemma bisect_left_leaves (a : list Z) (x lo v : Z) :
  0 <= lo < len a -> get a lo = Some v -> v < x ->
  exists pos, bisect_left a x lo = Ok pos /\ lo < pos <= len a.
Proof.
  intros Hlo Hget Hv. unfold bisect_left.
  destruct (Z.ltb_spec lo 0); [lia|]. eexists. split; [reflexivity|].
  split.
  - apply (bisect_loop_leaves a x lo v); try assumption; unfold len in *; lia.
  - apply bisect_loop_range. lia.
Qed.

(** ** The packer: what the loop builds *)

Lemma packed_concat size splits cum i groups counts :
  packed size splits cum i groups counts ->
  0 <= i -> concat groups = skipn (Z.to_nat i) splits.
Proof.
  induction 1 as [|i j g c groups counts (Hij & Hj & Hg & _) _ IH]; intros Hi.
  - unfold len. rewrite Nat2Z.id, skipn_all. reflexivity.
  - simpl. rewrite IH by lia. subst g. apply slice_app_skipn; lia.
Qed.

Lemma packed_lengths size splits cum i groups counts :
  packed size splits cum i groups counts -> length groups = length counts.
Proof. induction 1; simpl; congruence. Qed.

Lemma packed_groups_nonempty size splits cum i groups counts :
  packed size splits cum i groups counts ->
  0 <= i -> Forall (fun g => g <> []) groups.
Proof.
  induction 1 as [|i j g c groups counts (Hij & Hj & Hg & _) _ IH]; intros Hi;
    constructor; [|apply IH; lia].
  subst g. rewrite slice_in_range by lia. intros E.
  apply (f_equal (@length str)) in E. rewrite length_firstn, length_skipn in E.
  unfold len in Hj. simpl in E. lia.
Qed.

Lemma merge_loop_packed (size : Z) (splits : list str) (cum : list Z)
    (combine_whitespace : bool) :
  0 < size ->
  len cum = len splits + 1 ->
  forall fuel current merged combined,
  0 <= current <= len splits ->
  len splits - current <= Z.of_nat fuel ->
  exists groups counts,
    merge_loop fuel size splits cum combine_whitespace current merged combined
    = Ok (merged ++ map (join (if combine_whitespace then lit " " else [])) groups,
          combined ++ counts) /\
    packed size splits cum current groups counts.
Proof.
  intros Hsize Hcum. induction fuel as [|fuel IH];
    intros current merged combined Hcur Hfuel.
  - assert (current = len splits) by (simpl in Hfuel; lia). subst current.
    exists [], []. simpl. rewrite Z.ltb_irrefl, !app_nil_r.
    split; [reflexivity|constructor].
  - cbn [merge_loop]. destruct (Z.ltb_spec current (len splits)) as [Hlt|Hge].
    + destruct (get_in_range cum current ltac:(lia)) as [vi Hvi].
      unfold getr at 1. rewrite Hvi. cbn [bind].
      destruct (bisect_left_leaves cum (vi + size) current vi
                  ltac:(lia) Hvi ltac:(lia)) as (pos & Hpos & Hrange).
      rewrite Hpos. cbn [bind].
      fold (next_index (len splits) current pos).
      set (index := next_index (len splits) current pos).
      assert (Hindex : current < index <= len splits).
      { unfold index, next_index.
        destruct (Z.eqb_spec (Z.min (pos - 1) (len splits)) current); lia. }
      rewrite (Z.min_l index) by lia.
      destruct (get_in_range cum index ltac:(lia)) as [vj Hvj].
      unfold getr. rewrite Hvj. cbn [bind].
      destruct (IH index
                  (merged ++ [join (if combine_whitespace then lit " " else [])
                                (slice splits current index)])
                  (combined ++ [vj - vi]) ltac:(lia) ltac:(lia))
        as (groups & counts & Hrun & Hpacked).
      exists (slice splits current index :: groups), ((vj - vi) :: counts).
      split.
      * rewrite Hrun. simpl. now rewrite <- !app_assoc.
      * econstructor; [|exact Hpacked].
        repeat split; try lia. exists vi, vj, pos. auto.
    + assert (current = len splits) by lia. subst current.
      exists [], []. rewrite !app_nil_r. split; [reflexivity|constructor].
Qed.

(** [_merge_splits] on lists of equal length and a positive [chunk_size]:
    either the short-circuit, or the loop's groups from index 0. *)
Lemma merge_splits_cases (self : RecursiveChunker) (splits : list str)
    (token_counts : list Z) (combine_whitespace : bool) :
  0 < chunk_size self ->
  length splits = length token_counts ->
  _merge_splits self splits token_counts combine_whitespace
    = Ok (splits, token_counts) \/
  exists groups counts,
    _merge_splits self splits token_counts combine_whitespace
    = Ok (map (join (if combine_whitespace then lit " " else [])) groups, counts) /\
    packed (chunk_size self) splits
      (if combine_whitespace
       then accumulate (fun x y => x + y + 1) (0 :: token_counts)
       else accumulate Z.add (0 :: token_counts))
      0 groups counts.
Proof.
  intros Hsize Hlen. unfold _merge_splits.
  assert (Hl : len splits = len token_counts) by (unfold len; now rewrite Hlen).
  destruct splits as [|s splits], token_counts as [|c token_counts];
    simpl in Hlen; try discriminate; [left; reflexivity|].
  cbn [truthy negb orb]. rewrite Hl, Z.eqb_refl. cbn [negb].
  destruct (forallb _ (c :: token_counts)); [left; reflexivity|right].
  set (cum := if combine_whitespace then _ else _).
  assert (Hcum : len cum = len (s :: splits) + 1).
  { unfold cum. destruct combine_whitespace; now rewrite len_accumulate, Hl. }
  destruct (merge_loop_packed (chunk_size self) (s :: splits) cum
              combine_whitespace Hsize Hcum (length (s :: splits)) 0 [] []
              ltac:(pose proof (len_nonneg (s :: splits)); lia)
              ltac:(unfold len; lia))
    as (groups & counts & Hrun & Hpacked).
  exists groups, counts. split; [exact Hrun|exact Hpacked].
Qed.

Lemma accumulate_from_sorted (f : Z -> Z -> Z) (l : list Z) :
  (forall acc y, In y l -> acc <= f acc y) ->
  forall acc,
  (forall i v, nth_error (accumulate_from f acc l) i = Some v -> acc <= v) /\
  (forall i j vi vj, (i <= j)%nat ->
     nth_error (accumulate_from f acc l) i = Some vi ->
     nth_error (accumulate_from f acc l) j = Some vj -> vi <= vj).
Proof.
  induction l as [|y l IH]; intros Hf acc.
  - split.
    + intros [|i] v H; simpl in H; [injection H as <-; lia|].
      destruct i; discriminate.
    + intros [|i] [|j] vi vj Hij Hi Hj; simpl in Hi, Hj;
        try (destruct i; discriminate); try (destruct j; discriminate).
      injection Hi as <-. injection Hj as <-. lia.
  - assert (Hf' : forall acc y0, In y0 l -> acc <= f acc y0)
      by (intros; apply Hf; now right).
    destruct (IH Hf' (f acc y)) as [Hlow Hsorted].
    assert (Hstep : acc <= f acc y) by (apply Hf; now left).
    split.
    + intros [|i] v H; simpl in H; [injection H as <-; lia|].
      apply Hlow in H. lia.
    + intros [|i] [|j] vi vj Hij Hi Hj; simpl in Hi, Hj; try lia.
      * injection Hi as <-. injection Hj as <-. lia.
      * injection Hi as <-. apply Hlow in Hj. lia.
      * apply (Hsorted i j); [lia|assumption|assumption].
Qed.

(** The cumulative counts of non-negative token counts do not decrease. *)
Lemma cumulative_sorted (token_counts : list Z) (combine_whitespace : bool) :
  Forall (fun c => 0 <= c) token_counts ->
  forall i j vi vj, 0 <= i <= j ->
  get (if combine_whitespace
       then accumulate (fun x y => x + y + 1) (0 :: token_counts)
       else accumulate Z.add (0 :: token_counts)) i = Some vi ->
  get (if combine_whitespace
       then accumulate (fun x y => x + y + 1) (0 :: token_counts)
       else accumulate Z.add (0 :: token_counts)) j = Some vj ->
  vi <= vj.
Proof.
  intros Hpos i j vi vj Hij. rewrite !get_nonneg by lia.
  rewrite Forall_forall in Hpos.
  destruct combine_whitespace; cbn [accumulate]; intros Hi Hj.
  - refine (proj2 (accumulate_from_sorted (fun x y => x + y + 1) token_counts _ 0)
              (Z.to_nat i) (Z.to_nat j) vi vj _ Hi Hj); [|lia].
    intros acc y Hy. apply Hpos in Hy. lia.
  - refine (proj2 (accumulate_from_sorted Z.add token_counts _ 0)
              (Z.to_nat i) (Z.to_nat j) vi vj _ Hi Hj); [|lia].
    intros acc y Hy. apply Hpos in Hy. lia.
Qed.

Lemma packed_counts_nonneg size splits cum i groups counts :
  packed size splits cum i groups counts ->
  (forall p q vp vq, 0 <= p <= q ->
     get cum p = Some vp -> get cum q = Some vq -> vp <= vq) ->
  Forall (fun c => 0 <= c) counts.
Proof.
  intros Hpacked Hsorted.
  induction Hpacked as
    [|i j g c groups counts (Hij & Hj & Hg & vi & vj & pos & Hvi & Hvj & Hc & _) _ IH];
    constructor; [|exact IH].
  specialize (Hsorted i j vi vj ltac:(lia) Hvi Hvj). lia.
Qed.

Lemma join_singleton (sep0 : str) (l : list str) :
  map (join sep0) (map (fun s => [s]) l) = l.
Proof. induction l as [|s l IH]; simpl; [reflexivity|now rewrite IH]. Qed.

Lemma concat_singletons {A} (l : list A) : concat (map (fun s => [s]) l) = l.
Proof. induction l as [|s l IH]; simpl; [reflexivity|now rewrite IH]. Qed.

(** What the driver needs of the packer: it returns, it groups consecutive
    fragments in order, it returns as many counts as fragments, and the
    counts are non-negative when the given ones are. *)
Lemma merge_splits_groups (self : RecursiveChunker) (splits : list str)
    (token_counts : list Z) (combine_whitespace : bool) :
  0 < chunk_size self ->
  length splits = length token_counts ->
  exists groups combined,
    _merge_splits self splits token_counts combine_whitespace
    = Ok (map (join (if combine_whitespace then lit " " else [])) groups,
          combined) /\
    concat groups = splits /\
    length groups = length combined /\
    (Forall (fun c => 0 <= c) token_counts -> Forall (fun c => 0 <= c) combined).
Proof.
  intros Hsize Hlen.
  destruct (merge_splits_cases self splits token_counts combine_whitespace
              Hsize Hlen) as [Hsame|(groups & counts & Hrun & Hpacked)].
  - exists (map (fun s => [s]) splits), token_counts.
    rewrite join_singleton, concat_singletons, length_map. auto.
  - exists groups, counts. split; [exact Hrun|]. split; [|split].
    + now rewrite (packed_concat _ _ _ _ _ _ Hpacked).
    + exact (packed_lengths _ _ _ _ _ _ Hpacked).
    + intros Hpos. apply (packed_counts_nonneg _ _ _ _ _ _ Hpacked).
      now apply cumulative_sorted.
Qed.

(** ** The splitter *)

(** The token windows of the terminal mode tile the token sequence, and none
    is longer than [chunk_size]. *)
Lemma windows_tile {A} (encoded : list A) (size : Z) :
  0 < size ->
  forall fuel i, 0 <= i -> len encoded - i <= Z.of_nat fuel ->
  concat (map (fun i => slice encoded i (i + size))
              (range_from fuel i (len encoded) size))
  = skipn (Z.to_nat i) encoded.
Proof.
  intros Hsize. induction fuel as [|fuel IH]; intros i Hi Hfuel; simpl.
  - symmetry. apply skipn_all2. unfold len in Hfuel. lia.
  - destruct (Z.ltb_spec i (len encoded)) as [Hlt|Hge].
    + simpl. rewrite IH by lia.
      destruct (Z.le_gt_cases (i + size) (len encoded)) as [Hin|Hout].
      * apply slice_app_skipn; lia.
      * rewrite (skipn_all2 (n := Z.to_nat (i + size))) by (unfold len in Hout; lia).
        rewrite app_nil_r. unfold slice, clamp.
        destruct (Z.ltb_spec i 0); [lia|].
        destruct (Z.ltb_spec (i + size) 0); [lia|].
        rewrite (Z.min_l i), (Z.min_r (i + size)) by lia.
        apply firstn_all2. rewrite length_skipn. unfold len. lia.
    + symmetry. apply skipn_all2. unfold len in Hge. lia.
Qed.

Lemma slice_length_le {A} (l : list A) (i size : Z) :
  0 <= i -> 0 < size -> len (slice l i (i + size)) <= size.
Proof.
  intros Hi Hsize. unfold slice, clamp, len.
  destruct (Z.ltb_spec i 0); [lia|]. destruct (Z.ltb_spec (i + size) 0); [lia|].
  rewrite length_firstn. lia.
Qed.

Lemma get_some_lt {A} (l : list A) (i : Z) (v : A) :
  0 <= i -> get l i = Some v -> i < len l.
Proof.
  intros Hi H. rewrite get_nonneg in H by lia.
  assert (Hn : nth_error l (Z.to_nat i) <> None) by congruence.
  apply nth_error_Some in Hn. unfold len. lia.
Qed.

(** ** The recursive driver *)

Lemma getattr_whitespace (rl : RecursiveLevel) :
  getattr rl "whitespace" = Raise no_attribute_whitespace.
Proof. reflexivity. Qed.

Lemma split_text_raises (token : Type) (encode : str -> list token)
    (decode_batch : list (list token) -> list str) (self : RecursiveChunker)
    (text : str) (rl : RecursiveLevel) :
  _split_text token encode decode_batch self text rl
  = Raise no_attribute_whitespace.
Proof. unfold _split_text. now rewrite getattr_whitespace. Qed.

Section DriverFacts.

Variable token : Type.
Variable count_tokens : str -> Z.
Variable encode : str -> list token.
Variable decode_batch : list (list token) -> list str.

Local Abbreviation body := (_recursive_chunk_body token count_tokens encode decode_batch).

Lemma body_empty helper self level full_text :
  body helper self [] level full_text = Ok [].
Proof. reflexivity. Qed.

(** At a level of the hierarchy, the body stops at the call of
    [_split_text]. *)
Lemma body_in_hierarchy helper self levels text level full_text :
  rules self = RulesList levels ->
  text <> [] ->
  0 <= level < len levels ->
  body helper self text level full_text = Raise no_attribute_whitespace.
Proof.
  intros Hrules Hne Hlevel. unfold _recursive_chunk_body.
  destruct text as [|x text]; [congruence|]. cbn [truthy negb].
  rewrite Hrules. cbn [rules_len bind].
  destruct (Z.geb_spec level (len levels)); [lia|].
  destruct (get_in_range levels level Hlevel) as (curr_rule & Hget).
  cbn [rules_getitem]. rewrite Hget. cbn [bind].
  now rewrite split_text_raises.
Qed.

(** Past the last level, the body returns the text or calls
    [_make_chunks]. *)
Lemma body_past_levels helper self levels text level full_text :
  rules self = RulesList levels ->
  text <> [] ->
  len levels <= level ->
  body helper self text level full_text
  = match return_type self with
    | Texts => Ok [ItemText text]
    | Chunks => Raise unexpected_keyword_level
    end.
Proof.
  intros Hrules Hne Hlevel. unfold _recursive_chunk_body.
  destruct text as [|x text]; [congruence|]. cbn [truthy negb].
  rewrite Hrules. cbn [rules_len bind].
  destruct (Z.geb_spec level (len levels)); [|lia].
  destruct (return_type self); [|reflexivity].
  now rewrite make_chunks_raises.
Qed.

Lemma body_bare_level helper self bare text level full_text :
  rules self = RulesLevel bare ->
  text <> [] ->
  body helper self text level full_text
  = Raise (TypeError "object of type 'RecursiveLevel' has no len()").
Proof.
  intros Hrules Hne. unfold _recursive_chunk_body.
  destruct text as [|x text]; [congruence|]. cbn [truthy negb].
  now rewrite Hrules.
Qed.

End DriverFacts.

Lemma recursive_chunk_unfold (token : Type) (count_tokens : str -> Z)
    (encode : str -> list token) (decode_batch : list (list token) -> list str)
    (fuel : nat) (self : RecursiveChunker) (text : str) (level : Z)
    (full_text : option str) :
  _recursive_chunk token count_tokens encode decode_batch fuel self text level
    full_text
  = _recursive_chunk_body token count_tokens encode decode_batch
      (match fuel with
       | O => fun _ _ _ => Raise OutOfFuel
       | S fuel' =>
           _recursive_chunk token count_tokens encode decode_batch fuel' self
       end)
      self text level full_text.
Proof. destruct fuel; reflexivity. Qed.

Lemma len_cons_pos {A} (x : A) (l : list A) : 0 <= 0 < len (x :: l).
Proof. unfold len. simpl. lia. Qed.

(** C1: with a non-empty list of levels, [chunk] returns nothing for a
    non-empty text.  The first thing [_split_text] does is to read
    [recursive_level.whitespace], an attribute [RecursiveLevel] does not
    have: [chunk] raises [AttributeError], and there are no chunk texts to
    concatenate. *)
Theorem chunk_raises_attribute_error (token : Type) (count_tokens : str -> Z)
    (encode : str -> list token) (decode_batch : list (list token) -> list str)
    (self : RecursiveChunker) (rl : RecursiveLevel)
    (rest : list RecursiveLevel) (text : str) :
  rules self = RulesList (rl :: rest) ->
  text <> [] ->
  chunk token count_tokens encode decode_batch self text
  = Raise no_attribute_whitespace.
Proof.
  intros Hrules Hne. unfold chunk. rewrite Hrules. cbn [_recursive_chunk].
  apply (body_in_hierarchy token count_tokens encode decode_batch _ self
           (rl :: rest)); [exact Hrules|exact Hne|apply len_cons_pos].
Qed.

Lemma chunk_raises_attribute_error_witness :
  new_RecursiveRules None = Ok (RulesList default_levels) /\
  new_RecursiveChunker 5 (RulesList default_levels) 1 "chunks"
  = Ok (chunker_of 5 1 Chunks default_levels) /\
  lit "Hi there. This is a test." <> [] /\
  chunk char char_count_tokens char_encode char_decode_batch
    (chunker_of 5 1 Chunks default_levels) (lit "Hi there. This is a test.")
  = Raise no_attribute_whitespace.
Proof.
  split; [reflexivity|]. split; [reflexivity|]. split; [discriminate|].
  apply (chunk_raises_attribute_error char char_count_tokens char_encode
           char_decode_batch (chunker_of 5 1 Chunks default_levels)
           (hd token_level default_levels) (tl default_levels)
           (lit "Hi there. This is a test.")).
  - reflexivity.
  - discriminate.
Defined.


(** C3: at every level of the hierarchy, the driver stops before it has a
    fragment to compare with the budget.  For a non-empty text,
    [_recursive_chunk] raises [AttributeError] at its call of [_split_text]:
    the packer and the loop over the merged fragments are not reached,
    nothing is finalized and nothing is recursed into. *)
Theorem recursive_chunk_raises_before_loop (token : Type)
    (count_tokens : str -> Z) (encode : str -> list token)
    (decode_batch : list (list token) -> list str) (fuel : nat)
    (self : RecursiveChunker) (levels : list RecursiveLevel) (text : str)
    (level : Z) (full_text : option str) :
  rules self = RulesList levels ->
  text <> [] ->
  0 <= level < len levels ->
  _recursive_chunk token count_tokens encode decode_batch fuel self text level
    full_text
  = Raise no_attribute_whitespace.
Proof.
  intros Hrules Hne Hlevel. destruct fuel; cbn [_recursive_chunk];
    now apply (body_in_hierarchy token count_tokens encode decode_batch _ self
                 levels).
Qed.

Lemma recursive_chunk_raises_before_loop_witness :
  rules (chunker_of 1 1 Texts [level_of [","]%string; token_level])
  = RulesList [level_of [","]%string; token_level] /\
  lit "a,b,c" <> [] /\
  0 <= 1 < len [level_of [","]%string; token_level] /\
  _recursive_chunk char char_count_tokens char_encode char_decode_batch 2
    (chunker_of 1 1 Texts [level_of [","]%string; token_level]) (lit "a,b,c") 1
    (Some (lit "a,b,c"))
  = Raise no_attribute_whitespace.
Proof.
  split; [reflexivity|]. split; [discriminate|].
  split; [split; [discriminate|reflexivity]|].
  apply (recursive_chunk_raises_before_loop char char_count_tokens char_encode
           char_decode_batch 2
           (chunker_of 1 1 Texts [level_of [","]%string; token_level])
           [level_of [","]%string; token_level] (lit "a,b,c") 1
           (Some (lit "a,b,c"))).
  - reflexivity.
  - discriminate.
  - split; [discriminate|reflexivity].
Defined.

(** C4: in ["chunks"] mode [chunk] returns no chunk for a non-empty text.
    Where the driver gets as far as building one, past the last level, the
    call [RecursiveChunk(..., level=level)] raises [TypeError]: the
    dataclass has a field [recursive_level] and none called [level].  At a
    level of the hierarchy [_split_text] has raised before, and rules that
    hold a bare level have no length. *)
Theorem chunk_records_mode_raises (token : Type) (count_tokens : str -> Z)
    (encode : str -> list token) (decode_batch : list (list token) -> list str)
    (self : RecursiveChunker) (text : str) :
  return_type self = Chunks ->
  text <> [] ->
  chunk token count_tokens encode decode_batch self text
  = Raise match rules self with
          | RulesList [] => unexpected_keyword_level
          | RulesList (_ :: _) => no_attribute_whitespace
          | RulesLevel _ =>
              TypeError "object of type 'RecursiveLevel' has no len()"
          end.
Proof.
  intros Hrt Hne. unfold chunk.
  destruct (rules self) as [bare|[|rl rest]] eqn:Hrules; cbn [_recursive_chunk].
  - now apply body_bare_level with (bare := bare).
  - etransitivity;
      [apply body_past_levels with (levels := []);
         [exact Hrules|exact Hne|unfold len; simpl; lia]
      |now rewrite Hrt].
  - apply (body_in_hierarchy token count_tokens encode decode_batch _ self
             (rl :: rest)); [exact Hrules|exact Hne|apply len_cons_pos].
Qed.

Lemma chunk_records_mode_raises_witness :
  return_type (chunker_of 5 1 Chunks []) = Chunks /\
  lit "Hi" <> [] /\
  chunk char char_count_tokens char_encode char_decode_batch
    (chunker_of 5 1 Chunks []) (lit "Hi")
  = Raise unexpected_keyword_level.
Proof.
  split; [reflexivity|]. split; [discriminate|].
  apply (chunk_records_mode_raises char char_count_tokens char_encode
           char_decode_batch (chunker_of 5 1 Chunks []) (lit "Hi")).
  - reflexivity.
  - discriminate.
Defined.

(** ** Packer maximality *)

(** C5: two fragments of three tokens each and [chunk_size = 6].  Together
    they count 6, which does not exceed 6, so the maximal group holds both;
    [_merge_splits] looks for a cumulative count strictly below
    [chunk_size] ([bisect_left], minus one) and returns them apart. *)
Theorem merge_splits_not_maximal :
  _merge_splits (chunker_of 6 1 Chunks []) [lit "ab"; lit "cd"] [3; 3] false
  = Ok ([lit "ab"; lit "cd"], [3; 3]) /\
  merged_as_stated 2 6 false [lit "ab"; lit "cd"] [3; 3] = [lit "abcd"].
Proof. split; reflexivity. Qed.

(** The same with a space between the fragments: one token each and
    [chunk_size = 4]; one join makes 3. *)
Example merge_splits_not_maximal_whitespace :
  _merge_splits (chunker_of 4 1 Chunks []) [lit "a"; lit "b"] [1; 1] true
  = Ok ([lit "a"; lit "b"], [2; 2]) /\
  merged_as_stated 2 4 true [lit "a"; lit "b"] [1; 1] = [lit "a b"].
Proof. split; reflexivity. Qed.

(** The scenario of the spec: three fragments of three tokens and
    [chunk_size = 5]; every fragment stays alone. *)
Example merge_splits_scenario :
  _merge_splits (chunker_of 5 1 Chunks []) [lit "a"; lit "b"; lit "c"] [3; 3; 3]
    false
  = Ok ([lit "a"; lit "b"; lit "c"], [3; 3; 3]).
Proof. reflexivity. Qed.

(** What the loop does find.  On sorted cumulative counts, [bisect_left]
    returns the boundary between the counts below the target and the
    others. *)
Lemma bisect_loop_sorted (a : list Z) (x : Z) :
  (forall p q vp vq, 0 <= p <= q ->
     get a p = Some vp -> get a q = Some vq -> vp <= vq) ->
  forall fuel lo hi,
  0 <= lo <= hi -> hi <= len a -> hi - lo <= Z.of_nat fuel ->
  (forall k v, 0 <= k < lo -> get a k = Some v -> v < x) ->
  (forall k v, hi <= k -> get a k = Some v -> x <= v) ->
  (forall k v, 0 <= k < bisect_loop fuel a x lo hi -> get a k = Some v -> v < x) /\
  (forall k v, bisect_loop fuel a x lo hi <= k -> get a k = Some v -> x <= v).
Proof.
  intros Hsorted. induction fuel as [|fuel IH]; intros lo hi Hlo Hhi Hfuel Hbelow Habove.
  - assert (lo = hi) by (simpl in Hfuel; lia). subst hi. simpl. auto.
  - cbn [bisect_loop]. destruct (Z.ltb_spec lo hi) as [Hlt|Hge].
    + assert (Hmid : lo <= (lo + hi) / 2 < hi).
      { split; [apply Z.div_le_lower_bound|apply Z.div_lt_upper_bound]; lia. }
      destruct (get_in_range a ((lo + hi) / 2) ltac:(lia)) as [w Hw].
      cbv zeta. rewrite Hw. destruct (Z.ltb_spec w x) as [Hwx|Hxw].
      * apply IH; try lia; [|exact Habove].
        intros k v Hk Hv.
        specialize (Hsorted k ((lo + hi) / 2) v w ltac:(lia) Hv Hw). lia.
      * apply IH; try lia; [exact Hbelow|].
        intros k v Hk Hv.
        specialize (Hsorted ((lo + hi) / 2) k w v ltac:(lia) Hw Hv). lia.
    + assert (lo = hi) by lia. subst hi. auto.
Qed.

(** One turn of the loop on sorted cumulative counts: the group counts less
    than [chunk_size] or is a single fragment that counts [chunk_size] or
    more, and no longer group would count less than [chunk_size]. *)
Lemma group_at_below_budget (size : Z) (splits : list str) (cum : list Z)
    (i j : Z) (g : list str) (c : Z) :
  0 < size ->
  len cum = len splits + 1 ->
  (forall p q vp vq, 0 <= p <= q ->
     get cum p = Some vp -> get cum q = Some vq -> vp <= vq) ->
  group_at size splits cum i j g c ->
  (c < size \/ (j = i + 1 /\ size <= c)) /\
  (forall k vi vk, j < k -> get cum i = Some vi -> get cum k = Some vk ->
                   size <= vk - vi).
Proof.
  intros Hsize Hcum Hsorted
    (Hij & Hj & Hg & vi & vj & pos & Hvi & Hvj & Hc & Hpos & Hnext).
  unfold bisect_left in Hpos. destruct (Z.ltb_spec i 0); [lia|].
  injection Hpos as Hpos.
  pose proof (len_nonneg cum) as Hn.
  destruct (bisect_loop_sorted cum (vi + size) Hsorted (length cum) i (len cum)
              ltac:(lia) ltac:(lia) ltac:(unfold len; lia)) as [Hbelow Habove].
  { intros k v Hk Hv. specialize (Hsorted k i v vi ltac:(lia) Hv Hvi). lia. }
  { intros k v Hk Hv. apply get_some_lt in Hv; lia. }
  rewrite Hpos in Hbelow, Habove.
  assert (Hrange : i <= pos <= len cum).
  { rewrite <- Hpos. apply bisect_loop_range. lia. }
  unfold next_index in Hnext. rewrite Z.min_l in Hnext by lia.
  destruct (Z.eqb_spec (pos - 1) i) as [Heq|Hneq].
  - split.
    + right. split; [lia|]. specialize (Habove j vj ltac:(lia) Hvj). lia.
    + intros k vi' vk Hk Hvi' Hvk. rewrite Hvi in Hvi'. injection Hvi' as <-.
      specialize (Habove k vk ltac:(lia) Hvk). lia.
  - split.
    + left. specialize (Hbelow j vj ltac:(lia) Hvj). lia.
    + intros k vi' vk Hk Hvi' Hvk. rewrite Hvi in Hvi'. injection Hvi' as <-.
      specialize (Habove k vk ltac:(lia) Hvk). lia.
Qed.

(** * Further properties *)

(** ** Construction and validation *)

(** [__init__] accepts exactly a positive [chunk_size], a positive
    [min_characters_per_chunk] and a [return_type] that is ["chunks"] or
    ["texts"], and stores what it was given. *)
Theorem init_accepts_iff (size : Z) (rls : RecursiveRules) (min_chars : Z)
    (rt : string) (self : RecursiveChunker) :
  new_RecursiveChunker size rls min_chars rt = Ok self <->
  0 < size /\ 0 < min_chars /\
  chunk_size self = size /\ min_characters_per_chunk self = min_chars /\
  rules self = rls /\
  ((rt = "chunks"%string /\ return_type self = Chunks) \/
   (rt = "texts"%string /\ return_type self = Texts)).
Proof.
  unfold new_RecursiveChunker.
  destruct (Z.leb_spec size 0) as [Hs|Hs].
  { split; [discriminate|lia]. }
  destruct (Z.leb_spec min_chars 0) as [Hm|Hm].
  { split; [discriminate|lia]. }
  destruct (String.eqb_spec rt "chunks") as [Hc|Hc].
  { split.
    - intros H. injection H as <-. simpl. auto 10.
    - intros (_ & _ & H1 & H2 & H3 & [[_ H4]|[H4 _]]).
      + destruct self. simpl in *. now subst.
      + subst rt. discriminate H4. }
  destruct (String.eqb_spec rt "texts") as [Ht|Ht].
  { split.
    - intros H. injection H as <-. simpl. auto 10.
    - intros (_ & _ & H1 & H2 & H3 & [[H4 _]|[_ H4]]).
      + congruence.
      + destruct self. simpl in *. now subst. }
  split; [discriminate|]. intros (_ & _ & _ & _ & _ & [[H _]|[H _]]); congruence.
Qed.

Lemma existsb_false_Forall {A} (f : A -> bool) (l : list A) :
  existsb f l = false <-> Forall (fun x => f x = false) l.
Proof.
  induction l as [|x l IH]; simpl.
  - split; [constructor|reflexivity].
  - rewrite orb_false_iff, IH. split.
    + intros [H1 H2]. now constructor.
    + intros H. inversion H. auto.
Qed.

Lemma len_eqb_zero {A} (l : list A) : (len l =? 0) = false <-> l <> [].
Proof.
  destruct l; split; intros H; try congruence; try discriminate; reflexivity.
Qed.

(** [_validate_fields] accepts a level exactly when it has no custom
    delimiters, or it does not split on whitespace and its delimiters are a
    non-empty string, or a list of strings none of which is empty or the
    single space. *)
Theorem validate_fields_accepts_iff (self : RecursiveLevel) :
  _validate_fields self = Ok tt <->
  match custom_delimiters self with
  | None => True
  | Some (DelimStr s) => whitespace_delimiter self = false /\ s <> []
  | Some (DelimList l) =>
      whitespace_delimiter self = false /\
      Forall (fun d => d <> [] /\ d <> lit " ") l
  end.
Proof.
  unfold _validate_fields.
  destruct self as [ws [[s|l]|] incl];
    cbn [custom_delimiters whitespace_delimiter is_some].
  - destruct ws; cbn [andb]; [split; [discriminate|intros [H _]; discriminate]|].
    destruct (len s =? 0) eqn:E.
    + split; [discriminate|]. intros [_ H]. apply len_eqb_zero in H. congruence.
    + apply len_eqb_zero in E. tauto.
  - destruct ws; cbn [andb]; [split; [discriminate|intros [H _]; discriminate]|].
    destruct (existsb (fun delim => len delim =? 0) l) eqn:E1.
    + split; [discriminate|]. intros [_ H].
      assert (Hf : existsb (fun delim : str => len delim =? 0) l = false).
      { apply existsb_false_Forall. eapply Forall_impl; [|exact H].
        intros d [Hd _]. now apply len_eqb_zero. }
      discriminate (eq_trans (eq_sym E1) Hf).
    + destruct (existsb (fun delim => str_eqb delim (lit " ")) l) eqn:E2.
      * split; [discriminate|]. intros [_ H].
        assert (Hf : existsb (fun delim => str_eqb delim (lit " ")) l = false).
        { apply existsb_false_Forall. eapply Forall_impl; [|exact H].
          intros d [_ Hd]. now apply str_eqb_neq. }
        discriminate (eq_trans (eq_sym E2) Hf).
      * split; [|reflexivity]. intros _. split; [reflexivity|].
        apply existsb_false_Forall in E1, E2.
        rewrite Forall_forall in *. intros d Hd. split.
        -- apply len_eqb_zero. now apply E1.
        -- apply str_eqb_neq. now apply E2.
  - destruct ws; cbn [andb]; tauto.
Qed.

(** When [_validate_fields] raises, the level has custom delimiters; the
    error is [NotImplementedError] when it also splits on whitespace, and
    [ValueError] otherwise. *)
Theorem validate_fields_errors (self : RecursiveLevel) (e : exn) :
  _validate_fields self = Raise e ->
  custom_delimiters self <> None /\
  ((whitespace_delimiter self = true /\ exists msg, e = NotImplementedError msg) \/
   (whitespace_delimiter self = false /\ exists msg, e = ValueError msg)).
Proof.
  unfold _validate_fields.
  destruct self as [ws [[s|l]|] incl];
    cbn [custom_delimiters whitespace_delimiter is_some];
    destruct ws; cbn [andb];
    repeat match goal with
           | |- context [if ?b then _ else _] => destruct b
           end;
    intros H; try discriminate H; injection H as <-;
    (split; [discriminate|]);
    ((left; split; [reflexivity|eexists; reflexivity])
     || (right; split; [reflexivity|eexists; reflexivity])).
Qed.

Lemma validate_fields_errors_witness :
  _validate_fields {| whitespace_delimiter := true;
                      custom_delimiters := Some (DelimList []);
                      include_delim := Prev |}
  = Raise (NotImplementedError
      "Cannot use whitespace as a delimiter and also specify custom delimiters.") /\
  (custom_delimiters {| whitespace_delimiter := true;
                        custom_delimiters := Some (DelimList []);
                        include_delim := Prev |} <> None /\
   ((whitespace_delimiter {| whitespace_delimiter := true;
                             custom_delimiters := Some (DelimList []);
                             include_delim := Prev |} = true /\
     exists msg,
       NotImplementedError
         "Cannot use whitespace as a delimiter and also specify custom delimiters."
       = NotImplementedError msg) \/
    (whitespace_delimiter {| whitespace_delimiter := true;
                             custom_delimiters := Some (DelimList []);
                             include_delim := Prev |} = false /\
     exists msg,
       NotImplementedError
         "Cannot use whitespace as a delimiter and also specify custom delimiters."
       = ValueError msg))).
Proof.
  split; [reflexivity|].
  apply (validate_fields_errors
           {| whitespace_delimiter := true;
              custom_delimiters := Some (DelimList []);
              include_delim := Prev |}).
  reflexivity.
Defined.

Lemma validate_all_ok (l : list RecursiveLevel) :
  validate_all l = Ok tt <-> Forall (fun rl => _validate_fields rl = Ok tt) l.
Proof.
  induction l as [|rl l IH]; simpl.
  - split; [constructor|reflexivity].
  - destruct (_validate_fields rl) as [[]|e] eqn:E; simpl.
    + rewrite IH. split; intros H; [constructor|inversion H]; assumption.
    + split; [discriminate|]. intros H. inversion H. congruence.
Qed.

(** [RecursiveRules(levels)] on a list succeeds exactly when every member
    passes [_validate_fields], and then holds the list it was given. *)
Theorem rules_constructor_validates (l : list RecursiveLevel)
    (r : RecursiveRules) :
  new_RecursiveRules (Some (RulesList l)) = Ok r <->
  r = RulesList l /\ Forall (fun rl => _validate_fields rl = Ok tt) l.
Proof.
  unfold new_RecursiveRules. rewrite <- validate_all_ok.
  destruct (validate_all l) as [[]|e]; simpl.
  - split; [intros H; injection H as <-; auto|intros [-> _]; reflexivity].
  - split; [discriminate|intros [_ H]; discriminate].
Qed.

(** On rules backed by a list, [len], iteration and indexing agree:
    position [i] from the front, and [i - len] from the back, hold the
    [i]-th level that iteration yields; any other index raises
    [IndexError]. *)
Theorem rules_indexing_agrees_with_iteration (l : list RecursiveLevel) (i : Z) :
  rules_len (RulesList l) = Ok (len l) /\
  rules_iter (RulesList l) = Ok l /\
  (0 <= i < len l ->
   exists rl, nth_error l (Z.to_nat i) = Some rl /\
              rules_getitem (RulesList l) i = Ok rl /\
              rules_getitem (RulesList l) (i - len l) = Ok rl) /\
  (i < - len l \/ len l <= i ->
   exists msg, rules_getitem (RulesList l) i = Raise (IndexError msg)).
Proof.
  split; [reflexivity|]. split; [reflexivity|]. split.
  - intros Hi. destruct (get_in_range l i Hi) as [rl Hrl].
    exists rl. rewrite get_nonneg in Hrl by lia. split; [exact Hrl|].
    unfold rules_getitem, get.
    destruct (Z.ltb_spec i 0); [lia|].
    destruct (Z.ltb_spec (i - len l) 0); [|lia].
    destruct (Z.ltb_spec (len l + (i - len l)) 0); [lia|].
    replace (len l + (i - len l)) with i by lia. now rewrite Hrl.
  - intros Hi. unfold rules_getitem, get.
    destruct (Z.ltb_spec i 0).
    + destruct (Z.ltb_spec (len l + i) 0); [eauto|].
      pose proof (len_nonneg l). lia.
    + destruct (nth_error l (Z.to_nat i)) eqn:E; [|eauto].
      assert (Hn : nth_error l (Z.to_nat i) <> None) by congruence.
      apply nth_error_Some in Hn. unfold len in Hi. lia.
Qed.

Lemma rules_indexing_agrees_with_iteration_witness :
  0 <= 3 < len default_levels /\
  exists rl, nth_error default_levels (Z.to_nat 3) = Some rl /\
             rules_getitem (RulesList default_levels) 3 = Ok rl /\
             rules_getitem (RulesList default_levels) (3 - len default_levels)
             = Ok rl.
Proof.
  split; [split; [discriminate|reflexivity]|].
  apply (proj1 (proj2 (proj2
           (rules_indexing_agrees_with_iteration default_levels 3)))).
  split; [discriminate|reflexivity].
Defined.

(** Rules that hold a bare level have no length, no items and no iterator;
    a chunker built on them returns the empty sequence for the empty text
    and raises [TypeError] for every other text. *)
Theorem bare_level_rules_not_indexable (token : Type) (count_tokens : str -> Z)
    (encode : str -> list token) (decode_batch : list (list token) -> list str)
    (self : RecursiveChunker) (bare : RecursiveLevel) (text : str) (i : Z) :
  rules self = RulesLevel bare ->
  (exists msg, rules_len (rules self) = Raise (TypeError msg)) /\
  (exists msg, rules_getitem (rules self) i = Raise (TypeError msg)) /\
  (exists msg, rules_iter (rules self) = Raise (TypeError msg)) /\
  chunk token count_tokens encode decode_batch self [] = Ok [] /\
  (text <> [] ->
   exists msg,
     chunk token count_tokens encode decode_batch self text
     = Raise (TypeError msg)).
Proof.
  intros Hrules. rewrite Hrules. simpl.
  split; [eauto|]. split; [eauto|]. split; [eauto|].
  split; [unfold chunk; now rewrite Hrules|].
  intros Hne. unfold chunk. rewrite Hrules. cbn [_recursive_chunk].
  unfold _recursive_chunk_body. destruct text; [congruence|].
  cbn [truthy negb]. rewrite Hrules. simpl. eauto.
Qed.

Lemma bare_level_rules_not_indexable_witness :
  rules {| chunk_size := 5; min_characters_per_chunk := 1;
           return_type := Chunks; rules := RulesLevel drop_commas |}
  = RulesLevel drop_commas /\
  lit "a,b" <> [] /\
  exists msg,
    chunk char char_count_tokens char_encode char_decode_batch
      {| chunk_size := 5; min_characters_per_chunk := 1;
         return_type := Chunks; rules := RulesLevel drop_commas |} (lit "a,b")
    = Raise (TypeError msg).
Proof.
  split; [reflexivity|]. split; [discriminate|].
  apply (bare_level_rules_not_indexable char char_count_tokens char_encode
           char_decode_batch
           {| chunk_size := 5; min_characters_per_chunk := 1;
              return_type := Chunks; rules := RulesLevel drop_commas |}
           drop_commas (lit "a,b") 0 eq_refl).
  discriminate.
Defined.

(** ** Dictionary forms *)

Lemma level_from_to_dict (rl : RecursiveLevel) :
  _validate_fields rl = Ok tt ->
  RecursiveLevel_from_dict (RecursiveLevel_to_dict rl) = Ok rl.
Proof.
  intros Hvalid. unfold RecursiveLevel_from_dict, RecursiveLevel_to_dict.
  cbn [d_unexpected d_whitespace_delimiter d_custom_delimiters d_include_delim
       or_default].
  unfold new_RecursiveLevel. destruct rl as [ws d incl].
  cbn [whitespace_delimiter custom_delimiters include_delim].
  now rewrite Hvalid.
Qed.

(** A level that passes validation comes back from its dictionary. *)
Theorem level_dict_round_trip (rl : RecursiveLevel) :
  _validate_fields rl = Ok tt ->
  RecursiveLevel_from_dict (RecursiveLevel_to_dict rl) = Ok rl.
Proof. intros Hvalid. now apply level_from_to_dict. Qed.

Lemma level_dict_round_trip_witness :
  _validate_fields (level_of ["."; "!"; "?"]%string) = Ok tt /\
  RecursiveLevel_from_dict (RecursiveLevel_to_dict (level_of ["."; "!"; "?"]%string))
  = Ok (level_of ["."; "!"; "?"]%string).
Proof.
  split; [reflexivity|].
  apply (level_dict_round_trip (level_of ["."; "!"; "?"]%string)).
  reflexivity.
Defined.

(** What [RecursiveLevel.from_dict] builds has passed validation; the
    dictionary had no key besides the three fields, and a field whose key
    was absent has its default: [False], [None], ["prev"]. *)
Theorem level_from_dict_result (data : LevelDict) (rl : RecursiveLevel) :
  RecursiveLevel_from_dict data = Ok rl ->
  d_unexpected data = [] /\
  _validate_fields rl = Ok tt /\
  whitespace_delimiter rl = or_default (d_whitespace_delimiter data) false /\
  custom_delimiters rl = or_default (d_custom_delimiters data) None /\
  include_delim rl = or_default (d_include_delim data) Prev.
Proof.
  unfold RecursiveLevel_from_dict, new_RecursiveLevel.
  destruct (d_unexpected data); [|discriminate].
  destruct (_validate_fields _) as [[]|e] eqn:E; [|discriminate].
  cbn [bind]. intros H. injection H as <-. now rewrite E.
Qed.

Lemma level_from_dict_result_witness :
  RecursiveLevel_from_dict
    {| d_whitespace_delimiter := Some true; d_custom_delimiters := None;
       d_include_delim := None; d_unexpected := [] |}
  = Ok {| whitespace_delimiter := true; custom_delimiters := None;
          include_delim := Prev |} /\
  d_unexpected
    {| d_whitespace_delimiter := Some true; d_custom_delimiters := None;
       d_include_delim := None; d_unexpected := [] |} = [] /\
  _validate_fields {| whitespace_delimiter := true; custom_delimiters := None;
                      include_delim := Prev |} = Ok tt /\
  whitespace_delimiter {| whitespace_delimiter := true; custom_delimiters := None;
                          include_delim := Prev |}
  = or_default (Some true) false /\
  custom_delimiters {| whitespace_delimiter := true; custom_delimiters := None;
                       include_delim := Prev |}
  = or_default None None /\
  include_delim {| whitespace_delimiter := true; custom_delimiters := None;
                   include_delim := Prev |}
  = or_default None Prev.
Proof.
  split; [reflexivity|].
  apply (level_from_dict_result
           {| d_whitespace_delimiter := Some true; d_custom_delimiters := None;
              d_include_delim := None; d_unexpected := [] |}).
  reflexivity.
Defined.

Lemma levels_from_dicts_to_dicts (l : list RecursiveLevel) :
  Forall (fun rl => _validate_fields rl = Ok tt) l ->
  levels_from_dicts (map RecursiveLevel_to_dict l) = Ok l.
Proof.
  induction 1 as [|rl l Hrl _ IH]; simpl; [reflexivity|].
  now rewrite (level_from_to_dict rl Hrl), IH.
Qed.

(** Rules that pass their constructor's validation come back from their
    dictionary, and the call leaves the dictionary without its ["levels"]
    key. *)
Theorem rules_dict_round_trip (r : RecursiveRules) :
  new_RecursiveRules (Some r) = Ok r ->
  RecursiveRules_from_dict (RecursiveRules_to_dict r)
  = Some (Ok r, {| d_levels := None; d_others := [] |}).
Proof.
  intros Hvalid. unfold RecursiveRules_from_dict.
  destruct r as [level|levels]; cbn [RecursiveRules_to_dict d_levels d_others].
  - assert (Hl : _validate_fields level = Ok tt).
    { unfold new_RecursiveRules in Hvalid.
      destruct (_validate_fields level) as [[]|e]; [reflexivity|discriminate]. }
    rewrite (level_from_to_dict level Hl). cbn [bind]. now rewrite Hvalid.
  - assert (Hl : Forall (fun rl => _validate_fields rl = Ok tt) levels).
    { apply validate_all_ok. unfold new_RecursiveRules in Hvalid.
      destruct (validate_all levels) as [[]|e]; [reflexivity|discriminate]. }
    rewrite (levels_from_dicts_to_dicts levels Hl). cbn [bind].
    now rewrite Hvalid.
Qed.

Lemma rules_dict_round_trip_witness :
  new_RecursiveRules (Some (RulesList default_levels))
  = Ok (RulesList default_levels) /\
  RecursiveRules_from_dict (RecursiveRules_to_dict (RulesList default_levels))
  = Some (Ok (RulesList default_levels), {| d_levels := None; d_others := [] |}).
Proof.
  split; [reflexivity|].
  apply (rules_dict_round_trip (RulesList default_levels)). reflexivity.
Defined.

(** [RecursiveRules.from_dict] pops ["levels"] from the dictionary it is
    given: after a call that got past the lookup the key is gone, the other
    keys are untouched, and a second call on the same dictionary raises
    [KeyError]. *)
Theorem rules_from_dict_consumes_levels (data data' : RulesDict)
    (r : result RecursiveRules) :
  RecursiveRules_from_dict data = Some (r, data') ->
  d_levels data' = None /\ d_others data' = d_others data /\
  RecursiveRules_from_dict data' = None.
Proof.
  unfold RecursiveRules_from_dict.
  destruct (d_levels data); [|discriminate].
  intros H. injection H as _ <-. auto.
Qed.

Lemma rules_from_dict_consumes_levels_witness :
  RecursiveRules_from_dict {| d_levels := Some EntryNone; d_others := [] |}
  = Some (Ok (RulesList default_levels), {| d_levels := None; d_others := [] |}) /\
  d_levels {| d_levels := None; d_others := [] |} = None /\
  d_others {| d_levels := None; d_others := [] |}
  = d_others {| d_levels := Some EntryNone; d_others := [] |} /\
  RecursiveRules_from_dict {| d_levels := None; d_others := [] |} = None.
Proof.
  split; [reflexivity|].
  apply (rules_from_dict_consumes_levels
           {| d_levels := Some EntryNone; d_others := [] |}
           {| d_levels := None; d_others := [] |}
           (Ok (RulesList default_levels))).
  reflexivity.
Defined.

(** ** The estimator, by length *)

(** For a positive [chunk_size], the estimator answers [chunk_size + 1]
    without a tokenizer call exactly for the texts of at least
    [6.5 * (chunk_size + 1)] characters, whatever their token count; shorter
    texts get the tokenizer's count. *)
Theorem estimate_by_length (count_tokens : str -> Z) (self : RecursiveChunker)
    (text : str) :
  0 < chunk_size self ->
  (13 * (chunk_size self + 1) <= 2 * len text ->
   _estimate_token_count count_tokens self text = (chunk_size self + 1, [])) /\
  (2 * len text < 13 * (chunk_size self + 1) ->
   _estimate_token_count count_tokens self text = (count_tokens text, [text])).
Proof.
  intros Hsize. pose proof (floordiv_chars_per_token_spec (len text)) as Hq.
  unfold _estimate_token_count.
  destruct (Z.gtb_spec (Z.max 1 (floordiv_chars_per_token (len text)))
              (chunk_size self)); split; intros Hlen; try reflexivity; lia.
Qed.

Lemma estimate_by_length_witness :
  0 < chunk_size (chunker_of 1 1 Chunks []) /\
  (13 * (chunk_size (chunker_of 1 1 Chunks []) + 1) <= 2 * len (lit "abcdefghijklm") ->
   _estimate_token_count (fun _ => 1) (chunker_of 1 1 Chunks [])
     (lit "abcdefghijklm")
   = (chunk_size (chunker_of 1 1 Chunks []) + 1, [])) /\
  (2 * len (lit "abcdefghijklm") < 13 * (chunk_size (chunker_of 1 1 Chunks []) + 1) ->
   _estimate_token_count (fun _ => 1) (chunker_of 1 1 Chunks [])
     (lit "abcdefghijklm")
   = ((fun _ => 1) (lit "abcdefghijklm"), [lit "abcdefghijklm"])).
Proof.
  split; [reflexivity|].
  apply (estimate_by_length (fun _ => 1) (chunker_of 1 1 Chunks [])
           (lit "abcdefghijklm")).
  reflexivity.
Defined.

(** ** The splitter: its two loops *)

Lemma in_removelast {A} (x : A) (l : list A) : In x (removelast l) -> In x l.
Proof.
  induction l as [|y l IH]; simpl; [tauto|].
  destruct l as [|z l]; simpl in *; [tauto|]. intuition.
Qed.

(** The short-split loop on a positive threshold: every fragment flushed
    has at least [min_chars] characters, and the one being filled has
    fewer. *)
Lemma merge_short_step_long (min_chars : Z) (st : str * list str) (split : str) :
  0 < min_chars ->
  len (fst st) < min_chars ->
  Forall (fun s => min_chars <= len s) (snd st) ->
  len (fst (merge_short_step min_chars st split)) < min_chars /\
  Forall (fun s => min_chars <= len s) (snd (merge_short_step min_chars st split)).
Proof.
  intros Hmin Hc Hm. destruct st as [current merged]. simpl in Hc, Hm.
  assert (Hnil : len (@nil char) < min_chars) by (unfold len; simpl; lia).
  unfold merge_short_step.
  destruct (Z.ltb_spec (len split) min_chars) as [Hshort|Hlong].
  - destruct (Z.geb_spec (len (current ++ split)) min_chars) as [Hfull|Hnot];
      simpl; split; auto.
    apply Forall_app. split; [exact Hm|]. constructor; [lia|constructor].
  - destruct (truthy current).
    + destruct (Z.geb_spec (len (@nil char)) min_chars); [lia|].
      simpl. split; [exact Hnil|]. apply Forall_app. split; [exact Hm|].
      constructor; [|constructor]. rewrite len_app.
      pose proof (len_nonneg current). lia.
    + destruct (Z.geb_spec (len current) min_chars); [lia|].
      simpl. split; [exact Hc|]. apply Forall_app. split; [exact Hm|].
      constructor; [lia|constructor].
Qed.

Lemma merge_short_fold_long (min_chars : Z) (splits : list str) :
  0 < min_chars ->
  forall st,
  len (fst st) < min_chars ->
  Forall (fun s => min_chars <= len s) (snd st) ->
  len (fst (fold_left (merge_short_step min_chars) splits st)) < min_chars /\
  Forall (fun s => min_chars <= len s)
         (snd (fold_left (merge_short_step min_chars) splits st)).
Proof.
  intros Hmin. induction splits as [|split splits IH]; intros st Hc Hm;
    [simpl; auto|].
  cbn [fold_left].
  destruct (merge_short_step_long min_chars st split Hmin Hc Hm) as [Hc' Hm'].
  now apply IH.
Qed.

(** The short-split merge of [_split_text], under a positive
    [min_characters_per_chunk]: no merged fragment is empty, and every
    merged fragment but the last has at least [min_characters_per_chunk]
    characters. *)
Theorem merge_short_long_but_last (min_chars : Z) (splits : list str) :
  0 < min_chars ->
  Forall (fun s => s <> []) (merge_short min_chars splits) /\
  Forall (fun s => min_chars <= len s) (but_last (merge_short min_chars splits)).
Proof.
  intros Hmin. unfold merge_short, but_last.
  match goal with
  | |- context [fold_left ?f ?l ?st0] =>
      destruct (merge_short_fold_long min_chars splits Hmin st0) as [Hc Hm];
      [unfold len; simpl; lia|constructor|];
      destruct (fold_left f l st0) as [current merged]
  end.
  simpl in Hc, Hm.
  assert (Hne : Forall (fun s : str => s <> []) merged).
  { eapply Forall_impl; [|exact Hm]. intros s Hs ->. unfold len in Hs.
    simpl in Hs. lia. }
  destruct current as [|x current]; cbn [truthy].
  - split; [exact Hne|]. apply Forall_forall. intros s Hs.
    apply in_removelast in Hs. rewrite Forall_forall in Hm. auto.
  - split.
    + apply Forall_app. split; [exact Hne|]. constructor; [discriminate|constructor].
    + now rewrite removelast_last.
Qed.

Lemma merge_short_long_but_last_witness :
  0 < 3 /\
  merge_short 3 [lit "a,"; lit "bcd,"; lit "e,"; lit "f"]
  = [lit "a,bcd,"; lit "e,f"] /\
  Forall (fun s => s <> [])
    (merge_short 3 [lit "a,"; lit "bcd,"; lit "e,"; lit "f"]) /\
  Forall (fun s => 3 <= len s)
    (but_last (merge_short 3 [lit "a,"; lit "bcd,"; lit "e,"; lit "f"])).
Proof.
  split; [reflexivity|]. split; [reflexivity|].
  apply (merge_short_long_but_last 3 [lit "a,"; lit "bcd,"; lit "e,"; lit "f"]).
  reflexivity.
Defined.

Lemma merge_short_fold_keeps (min_chars : Z) (splits : list str) :
  0 < min_chars ->
  Forall (fun s => min_chars <= len s) splits ->
  forall merged,
  fold_left (merge_short_step min_chars) splits ([], merged)
  = ([], merged ++ splits).
Proof.
  intros Hmin. induction 1 as [|split splits Hs _ IH]; intros merged; simpl.
  - now rewrite app_nil_r.
  - destruct (Z.ltb_spec (len split) min_chars); [lia|].
    destruct (Z.geb_spec (len (@nil char)) min_chars) as [Hge|_];
      [unfold len in Hge; simpl in Hge; lia|].
    rewrite IH. now rewrite <- app_assoc.
Qed.

(** Fragments that all have at least [min_characters_per_chunk] characters
    pass the short-split merge unchanged. *)
Theorem merge_short_keeps_long_fragments (min_chars : Z) (splits : list str) :
  0 < min_chars ->
  Forall (fun s => min_chars <= len s) splits ->
  merge_short min_chars splits = splits.
Proof.
  intros Hmin Hlong. unfold merge_short.
  now rewrite (merge_short_fold_keeps min_chars splits Hmin Hlong []).
Qed.

Lemma merge_short_keeps_long_fragments_witness :
  0 < 2 /\
  Forall (fun s => 2 <= len s) [lit "ab,"; lit "cd,"; lit "efg"] /\
  merge_short 2 [lit "ab,"; lit "cd,"; lit "efg"]
  = [lit "ab,"; lit "cd,"; lit "efg"].
Proof.
  split; [reflexivity|]. split; [repeat constructor; discriminate|].
  apply (merge_short_keeps_long_fragments 2 [lit "ab,"; lit "cd,"; lit "efg"]).
  - reflexivity.
  - repeat constructor; discriminate.
Defined.

Lemma range_from_starts (size n : Z) :
  0 < size ->
  forall fuel i, 0 <= i -> n - i <= Z.of_nat fuel ->
  Forall (fun k => i <= k < n) (range_from fuel i n size) /\
  len (range_from fuel i n size) = (Z.max 0 (n - i) + size - 1) / size.
Proof.
  intros Hsize. induction fuel as [|fuel IH]; intros i Hi Hfuel.
  - simpl in *. split; [constructor|].
    rewrite Z.max_l by lia. symmetry. apply Z.div_small. lia.
  - cbn [range_from]. destruct (Z.ltb_spec i n) as [Hlt|Hge].
    + destruct (IH (i + size) ltac:(lia) ltac:(lia)) as [Hall Hcount].
      split.
      * constructor; [lia|]. eapply Forall_impl; [|exact Hall].
        intros k Hk. simpl in Hk. lia.
      * change (len (i :: range_from fuel (i + size) n size))
          with (Z.of_nat (S (length (range_from fuel (i + size) n size)))).
        rewrite Nat2Z.inj_succ. fold (len (range_from fuel (i + size) n size)).
        rewrite Hcount, (Z.max_r 0 (n - i)) by lia.
        destruct (Z.le_gt_cases 0 (n - (i + size))) as [Hmore|Hlast].
        -- rewrite Z.max_r by lia.
           replace (n - i + size - 1) with (n - (i + size) + size - 1 + 1 * size)
             by lia.
           rewrite Z.div_add by lia. lia.
        -- rewrite Z.max_l by lia.
           rewrite (Z.div_small (0 + size - 1) size) by lia.
           change (Z.succ 0) with 1.
           apply (Z.div_unique _ _ 1 (n - i - 1)); lia.
    + split; [constructor|].
      rewrite Z.max_l by lia. symmetry. apply Z.div_small. lia.
Qed.

(** The token windows of [_split_text], under a positive [chunk_size]: the
    windows tile the token sequence, each holds between one and [chunk_size]
    tokens, and there are [ceil(n / chunk_size)] of them for [n] tokens. *)
Theorem token_windows_tile {A} (encoded : list A) (size : Z) :
  0 < size ->
  exists windows,
    token_windows encoded size = Ok windows /\
    concat windows = encoded /\
    Forall (fun w => 0 < len w <= size) windows /\
    len windows = (len encoded + size - 1) / size.
Proof.
  intros Hsize. unfold token_windows, range0.
  destruct (Z.eqb_spec size 0); [lia|].
  destruct (Z.ltb_spec size 0); [lia|]. cbn [bind].
  pose proof (len_nonneg encoded) as Hn.
  destruct (range_from_starts size (len encoded) Hsize
              (Z.to_nat (len encoded)) 0 ltac:(lia) ltac:(lia))
    as [Hstarts Hcount].
  eexists. split; [reflexivity|]. split; [|split].
  - apply (windows_tile encoded size Hsize (Z.to_nat (len encoded)) 0);
      lia.
  - apply Forall_forall. intros w Hin. apply in_map_iff in Hin.
    destruct Hin as (i & <- & Hi). rewrite Forall_forall in Hstarts.
    specialize (Hstarts i Hi). split; [|apply slice_length_le; lia].
    unfold slice, clamp, len.
    destruct (Z.ltb_spec i 0); [lia|].
    destruct (Z.ltb_spec (i + size) 0); [lia|].
    rewrite length_firstn, length_skipn. unfold len in *. lia.
  - unfold len at 1. rewrite length_map.
    fold (len (range_from (Z.to_nat (len encoded)) 0 (len encoded) size)).
    rewrite Hcount. now rewrite Z.sub_0_r, Z.max_r by lia.
Qed.

Lemma token_windows_tile_witness :
  0 < 3 /\
  token_windows (lit "abcdefgh") 3 = Ok [lit "abc"; lit "def"; lit "gh"] /\
  exists windows,
    token_windows (lit "abcdefgh") 3 = Ok windows /\
    concat windows = lit "abcdefgh" /\
    Forall (fun w => 0 < len w <= 3) windows /\
    len windows = (len (lit "abcdefgh") + 3 - 1) / 3.
Proof.
  split; [reflexivity|]. split; [reflexivity|].
  apply (token_windows_tile (lit "abcdefgh") 3). reflexivity.
Defined.

(** ** The packer: errors, content, counts *)

(** [_merge_splits] raises exactly when both lists are non-empty and differ
    in length; when either is empty it returns two empty lists, whatever
    the other holds. *)
Theorem merge_splits_raises_iff (self : RecursiveChunker) (splits : list str)
    (token_counts : list Z) (combine_whitespace : bool) :
  0 < chunk_size self ->
  ((exists e, _merge_splits self splits token_counts combine_whitespace = Raise e)
   <-> splits <> [] /\ token_counts <> [] /\
       length splits <> length token_counts) /\
  (splits = [] \/ token_counts = [] ->
   _merge_splits self splits token_counts combine_whitespace = Ok ([], [])).
Proof.
  intros Hsize. split.
  - split.
    + intros [e He].
      destruct splits as [|s splits]; [discriminate He|].
      destruct token_counts as [|c token_counts]; [discriminate He|].
      split; [discriminate|]. split; [discriminate|]. intros Hlen.
      destruct (merge_splits_groups self (s :: splits) (c :: token_counts)
                  combine_whitespace Hsize Hlen) as (g & k & Hrun & _).
      rewrite Hrun in He. discriminate He.
    + intros (Hs & Hc & Hlen). unfold _merge_splits.
      destruct splits as [|s splits]; [congruence|].
      destruct token_counts as [|c token_counts]; [congruence|].
      cbn [truthy negb orb].
      destruct (Z.eqb_spec (len (s :: splits)) (len (c :: token_counts))) as [E|_].
      * unfold len in E. apply Nat2Z.inj in E. congruence.
      * cbn [negb]. eauto.
  - unfold _merge_splits. intros [->| ->]; [reflexivity|].
    destruct splits; reflexivity.
Qed.

Lemma merge_splits_raises_iff_witness :
  0 < chunk_size (chunker_of 5 1 Chunks []) /\
  ((exists e, _merge_splits (chunker_of 5 1 Chunks []) [lit "a"; lit "b"] [1] false
              = Raise e)
   <-> [lit "a"; lit "b"] <> [] /\ [1] <> [] /\
       length [lit "a"; lit "b"] <> length [1]) /\
  ([lit "a"; lit "b"] = [] \/ [1] = [] ->
   _merge_splits (chunker_of 5 1 Chunks []) [lit "a"; lit "b"] [1] false
   = Ok ([], [])).
Proof.
  split; [reflexivity|].
  apply (merge_splits_raises_iff (chunker_of 5 1 Chunks [])
           [lit "a"; lit "b"] [1] false).
  reflexivity.
Defined.

Lemma join_app (sep0 : str) (a b : list str) :
  a <> [] -> b <> [] -> join sep0 (a ++ b) = join sep0 a ++ sep0 ++ join sep0 b.
Proof.
  intros Ha Hb. induction a as [|x a IH]; [congruence|].
  destruct a as [|y a].
  - destruct b as [|z b]; [congruence|]. reflexivity.
  - change ((x :: y :: a) ++ b) with (x :: y :: (a ++ b)).
    rewrite !join_cons.
    change (y :: a ++ b) with ((y :: a) ++ b).
    rewrite IH by discriminate. now rewrite <- !app_assoc.
Qed.

Lemma join_joins (sep0 : str) (groups : list (list str)) :
  Forall (fun g => g <> []) groups ->
  join sep0 (map (join sep0) groups) = join sep0 (concat groups).
Proof.
  induction 1 as [|g groups Hg Hgs IH]; [reflexivity|].
  destruct groups as [|g' groups].
  - simpl. now rewrite app_nil_r.
  - change (map (join sep0) (g :: g' :: groups))
      with (join sep0 g :: join sep0 g' :: map (join sep0) groups).
    rewrite join_cons.
    change (join sep0 g' :: map (join sep0) groups)
      with (map (join sep0) (g' :: groups)).
    rewrite IH.
    change (concat (g :: g' :: groups)) with (g ++ concat (g' :: groups)).
    rewrite join_app; [reflexivity|exact Hg|].
    inversion Hgs as [|? ? Hg' _]; subst. simpl.
    destruct g'; [congruence|discriminate].
Qed.

Lemma length_concat_nonempty {A} (groups : list (list A)) :
  Forall (fun g => g <> []) groups ->
  (length groups <= length (concat groups))%nat.
Proof.
  induction 1 as [|g groups Hg _ IH]; simpl; [lia|].
  rewrite length_app. destruct g; [congruence|]. simpl. lia.
Qed.

(** The packer keeps the content: the merged fragments, joined the way the
    groups were joined (with a space, or with nothing), give the same string
    as the input fragments joined that way; there are as many counts as
    merged fragments, and no more merged fragments than input fragments. *)
Theorem merge_splits_rejoins (self : RecursiveChunker) (splits : list str)
    (token_counts : list Z) (combine_whitespace : bool) :
  0 < chunk_size self ->
  length splits = length token_counts ->
  exists merged combined,
    _merge_splits self splits token_counts combine_whitespace
    = Ok (merged, combined) /\
    join (if combine_whitespace then lit " " else []) merged
    = join (if combine_whitespace then lit " " else []) splits /\
    length merged = length combined /\
    (length merged <= length splits)%nat.
Proof.
  intros Hsize Hlen.
  destruct (merge_splits_cases self splits token_counts combine_whitespace
              Hsize Hlen) as [Hsame|(groups & counts & Hrun & Hpacked)].
  - exists splits, token_counts. auto.
  - pose proof (packed_groups_nonempty _ _ _ _ _ _ Hpacked (Z.le_refl 0)) as Hne.
    pose proof (packed_concat _ _ _ _ _ _ Hpacked (Z.le_refl 0)) as Hcat.
    simpl in Hcat.
    exists (map (join (if combine_whitespace then lit " " else [])) groups), counts.
    split; [exact Hrun|]. split; [|split].
    + rewrite join_joins by exact Hne. now rewrite Hcat.
    + rewrite length_map. exact (packed_lengths _ _ _ _ _ _ Hpacked).
    + rewrite length_map, <- Hcat. now apply length_concat_nonempty.
Qed.

Lemma merge_splits_rejoins_witness :
  0 < chunk_size (chunker_of 6 1 Chunks []) /\
  length [lit "a"; lit "bc"; lit "d"] = length [1; 2; 1] /\
  exists merged combined,
    _merge_splits (chunker_of 6 1 Chunks []) [lit "a"; lit "bc"; lit "d"]
      [1; 2; 1] true = Ok (merged, combined) /\
    join (lit " ") merged = join (lit " ") [lit "a"; lit "bc"; lit "d"] /\
    length merged = length combined /\
    (length merged <= length [lit "a"; lit "bc"; lit "d"])%nat.
Proof.
  split; [reflexivity|]. split; [reflexivity|].
  apply (merge_splits_rejoins (chunker_of 6 1 Chunks [])
           [lit "a"; lit "bc"; lit "d"] [1; 2; 1] true).
  - reflexivity.
  - reflexivity.
Defined.

Lemma packed_total size splits cum i groups counts :
  packed size splits cum i groups counts ->
  forall vi vn,
  get cum i = Some vi -> get cum (len splits) = Some vn ->
  total counts = vn - vi.
Proof.
  induction 1 as
    [|i j g c groups counts (_ & _ & _ & vi' & vj & pos & Hvi & Hvj & Hc & _) _ IH];
    intros vi vn Hi Hn.
  - rewrite Hi in Hn. injection Hn as <-. simpl. lia.
  - rewrite Hi in Hvi. injection Hvi as <-.
    simpl. rewrite (IH vj vn Hvj Hn). lia.
Qed.

Lemma accumulate_from_last (f : Z -> Z -> Z) (l : list Z) :
  forall acc,
  nth_error (accumulate_from f acc l) (length l) = Some (fold_left f l acc).
Proof.
  induction l as [|x l IH]; intros acc; simpl; [reflexivity|apply IH].
Qed.

Lemma fold_left_add (l : list Z) (acc : Z) :
  fold_left Z.add l acc = acc + total l.
Proof.
  revert acc. induction l as [|x l IH]; intros acc; simpl; [lia|].
  rewrite IH. lia.
Qed.

Lemma fold_left_add_one (l : list Z) (acc : Z) :
  fold_left (fun x y => x + y + 1) l acc = acc + total l + len l.
Proof.
  revert acc. induction l as [|x l IH]; intros acc.
  - unfold len. simpl. lia.
  - cbn [fold_left]. rewrite IH. unfold len. simpl total. simpl length. lia.
Qed.

Lemma get_accumulate_head (f : Z -> Z -> Z) (x : Z) (l : list Z) :
  get (accumulate f (x :: l)) 0 = Some x.
Proof. destruct l; reflexivity. Qed.

Lemma merge_splits_packed (self : RecursiveChunker) (splits : list str)
    (token_counts : list Z) (combine_whitespace : bool) :
  0 < chunk_size self ->
  length splits = length token_counts ->
  forallb (fun c => c >? chunk_size self) token_counts = false ->
  exists groups counts,
    _merge_splits self splits token_counts combine_whitespace
    = Ok (map (join (if combine_whitespace then lit " " else [])) groups, counts) /\
    packed (chunk_size self) splits
      (if combine_whitespace
       then accumulate (fun x y => x + y + 1) (0 :: token_counts)
       else accumulate Z.add (0 :: token_counts))
      0 groups counts.
Proof.
  intros Hsize Hlen Hall. unfold _merge_splits.
  assert (Hl : len splits = len token_counts) by (unfold len; now rewrite Hlen).
  destruct splits as [|s splits], token_counts as [|c token_counts];
    simpl in Hlen; try discriminate.
  cbn [truthy negb orb]. rewrite Hl, Z.eqb_refl, Hall. cbn [negb].
  set (cum := if combine_whitespace then _ else _).
  assert (Hcum : len cum = len (s :: splits) + 1).
  { unfold cum. destruct combine_whitespace; now rewrite len_accumulate, Hl. }
  destruct (merge_loop_packed (chunk_size self) (s :: splits) cum
              combine_whitespace Hsize Hcum (length (s :: splits)) 0 [] []
              ltac:(pose proof (len_nonneg (s :: splits)); lia)
              ltac:(unfold len; lia))
    as (groups & counts & Hrun & Hpacked).
  exists groups, counts. split; [exact Hrun|exact Hpacked].
Qed.

(** The token total of the packer, for lists of equal length under a
    positive [chunk_size].  When every count is over [chunk_size] (the lists
    may be empty) the merged counts add up to what the given counts add up
    to.  Otherwise they add up to the same total when the fragments are
    concatenated, and to one more per fragment when they are joined with a
    space. *)
Theorem merge_splits_total (self : RecursiveChunker) (splits : list str)
    (token_counts : list Z) (combine_whitespace : bool) :
  0 < chunk_size self ->
  length splits = length token_counts ->
  exists merged combined,
    _merge_splits self splits token_counts combine_whitespace
    = Ok (merged, combined) /\
    total combined
    = total token_counts +
      (if combine_whitespace &&
          negb (forallb (fun c => c >? chunk_size self) token_counts)
       then len splits else 0).
Proof.
  intros Hsize Hlen.
  assert (Hl : len splits = len token_counts) by (unfold len; now rewrite Hlen).
  destruct (forallb (fun c => c >? chunk_size self) token_counts) eqn:Hall.
  - exists splits, token_counts. cbn [negb]. rewrite andb_false_r, Z.add_0_r.
    split; [|reflexivity]. unfold _merge_splits.
    rewrite Hl, Z.eqb_refl, Hall.
    destruct splits as [|s splits], token_counts as [|c token_counts];
      simpl in Hlen; try discriminate; reflexivity.
  - destruct (merge_splits_packed self splits token_counts combine_whitespace
                Hsize Hlen Hall) as (groups & counts & Hrun & Hpacked).
    eexists _, counts. split; [exact Hrun|]. cbn [negb]. rewrite andb_true_r.
    pose proof (len_nonneg token_counts) as Hnn.
    destruct combine_whitespace.
    + rewrite (packed_total _ _ _ _ _ _ Hpacked 0
                 (0 + total token_counts + len token_counts)).
      * lia.
      * apply get_accumulate_head.
      * rewrite Hl, get_nonneg by lia. unfold len. rewrite Nat2Z.id.
        cbn [accumulate]. rewrite accumulate_from_last.
        now rewrite fold_left_add_one.
    + rewrite (packed_total _ _ _ _ _ _ Hpacked 0 (0 + total token_counts)).
      * lia.
      * apply get_accumulate_head.
      * rewrite Hl, get_nonneg by lia. unfold len. rewrite Nat2Z.id.
        cbn [accumulate]. rewrite accumulate_from_last.
        now rewrite fold_left_add.
Qed.

Lemma merge_splits_total_witness :
  0 < chunk_size (chunker_of 6 1 Chunks []) /\
  length [lit "a"; lit "bc"; lit "d"] = length [1; 2; 1] /\
  _merge_splits (chunker_of 6 1 Chunks []) [lit "a"; lit "bc"; lit "d"]
    [1; 2; 1] true = Ok ([lit "a bc"; lit "d"], [5; 2]) /\
  exists merged combined,
    _merge_splits (chunker_of 6 1 Chunks []) [lit "a"; lit "bc"; lit "d"]
      [1; 2; 1] true = Ok (merged, combined) /\
    total combined
    = total [1; 2; 1] +
      (if true &&
          negb (forallb (fun c => c >? chunk_size (chunker_of 6 1 Chunks []))
                  [1; 2; 1])
       then len [lit "a"; lit "bc"; lit "d"] else 0).
Proof.
  split; [reflexivity|]. split; [reflexivity|]. split; [reflexivity|].
  apply (merge_splits_total (chunker_of 6 1 Chunks [])
           [lit "a"; lit "bc"; lit "d"] [1; 2; 1] true).
  - reflexivity.
  - reflexivity.
Defined.

Lemma slice_single {A} (l : list A) (i : Z) :
  0 <= i < len l -> exists x, slice l i (i + 1) = [x].
Proof.
  intros Hi. rewrite slice_in_range by lia.
  replace (Z.to_nat (i + 1 - i)) with 1%nat by lia.
  destruct (skipn (Z.to_nat i) l) as [|x rest] eqn:E.
  - apply (f_equal (@length A)) in E. rewrite length_skipn in E.
    unfold len in Hi. simpl in E. lia.
  - exists x. reflexivity.
Qed.

Lemma packed_under_budget size splits cum i groups counts :
  0 < size ->
  len cum = len splits + 1 ->
  (forall p q vp vq, 0 <= p <= q ->
     get cum p = Some vp -> get cum q = Some vq -> vp <= vq) ->
  packed size splits cum i groups counts ->
  Forall2 (fun g c => c < size \/ exists s, g = [s]) groups counts.
Proof.
  intros Hsize Hcum Hsorted. induction 1 as [|i j g c groups counts Hg _ IH];
    constructor; [|exact IH].
  destruct (group_at_below_budget size splits cum i j g c Hsize Hcum Hsorted Hg)
    as [[Hlt|[Hj _]] _]; [now left|right].
  destruct Hg as (Hij & Hjn & -> & _). subst j. apply slice_single. lia.
Qed.

(** On non-negative counts the packer never builds a group of two or more
    fragments that reaches [chunk_size]: every merged count is below
    [chunk_size], or its group is a single fragment. *)
Theorem merge_splits_groups_under_budget (self : RecursiveChunker)
    (splits : list str) (token_counts : list Z) (combine_whitespace : bool) :
  0 < chunk_size self ->
  length splits = length token_counts ->
  Forall (fun c => 0 <= c) token_counts ->
  exists groups combined,
    _merge_splits self splits token_counts combine_whitespace
    = Ok (map (join (if combine_whitespace then lit " " else [])) groups,
          combined) /\
    concat groups = splits /\
    Forall2 (fun g c => c < chunk_size self \/ exists s, g = [s])
            groups combined.
Proof.
  intros Hsize Hlen Hpos.
  destruct (merge_splits_cases self splits token_counts combine_whitespace
              Hsize Hlen) as [Hsame|(groups & counts & Hrun & Hpacked)].
  - exists (map (fun s => [s]) splits), token_counts.
    rewrite join_singleton, concat_singletons.
    split; [exact Hsame|]. split; [reflexivity|].
    clear Hsame Hpos. revert token_counts Hlen.
    induction splits as [|s splits IH]; intros [|c token_counts] Hlen;
      simpl in *; try discriminate; constructor; [right; eauto|].
    apply IH. lia.
  - exists groups, counts. split; [exact Hrun|]. split.
    + now rewrite (packed_concat _ _ _ _ _ _ Hpacked).
    + apply (packed_under_budget _ _ _ _ _ _ Hsize) in Hpacked; [exact Hpacked| |].
      * assert (Hl : len splits = len token_counts)
          by (unfold len; now rewrite Hlen).
        destruct combine_whitespace; now rewrite len_accumulate, Hl.
      * now apply cumulative_sorted.
Qed.

Lemma merge_splits_groups_under_budget_witness :
  0 < chunk_size (chunker_of 6 1 Chunks []) /\
  length [lit "a"; lit "bc"; lit "d"] = length [3; 2; 9] /\
  Forall (fun c => 0 <= c) [3; 2; 9] /\
  exists groups combined,
    _merge_splits (chunker_of 6 1 Chunks []) [lit "a"; lit "bc"; lit "d"]
      [3; 2; 9] false
    = Ok (map (join []) groups, combined) /\
    concat groups = [lit "a"; lit "bc"; lit "d"] /\
    Forall2 (fun g c => c < chunk_size (chunker_of 6 1 Chunks []) \/
                        exists s, g = [s])
            groups combined.
Proof.
  split; [reflexivity|]. split; [reflexivity|].
  split; [repeat constructor; discriminate|].
  apply (merge_splits_groups_under_budget (chunker_of 6 1 Chunks [])
           [lit "a"; lit "bc"; lit "d"] [3; 2; 9] false).
  - reflexivity.
  - reflexivity.
  - repeat constructor; discriminate.
Defined.

(** ** Offset recovery *)

Lemma find_some (sub s : str) :
  forall i, find sub s = Some i ->
  startswith sub (skipn i s) = true /\
  forall k, (k < i)%nat -> startswith sub (skipn k s) = false.
Proof.
  induction s as [|x s IH]; intros i Hfind.
  - simpl in Hfind. destruct (startswith sub []) eqn:E; [|discriminate].
    injection Hfind as <-. split; [exact E|]. intros k Hk. lia.
  - cbn [find] in Hfind. destruct (startswith sub (x :: s)) eqn:E.
    + injection Hfind as <-. split; [exact E|]. intros k Hk. lia.
    + destruct (find sub s) as [i'|] eqn:Ei; [|discriminate].
      simpl in Hfind. injection Hfind as <-.
      destruct (IH i' eq_refl) as [Hat Hbefore]. split; [exact Hat|].
      intros [|k] Hk; [exact E|]. simpl. apply Hbefore. lia.
Qed.

Lemma startswith_firstn (m : nat) (l : str) : startswith (firstn m l) l = true.
Proof.
  revert l. induction m as [|m IH]; intros [|x l]; simpl; try reflexivity.
  now rewrite N.eqb_refl, IH.
Qed.

Lemma slice_of_startswith (s t : str) (k : Z) :
  0 <= k -> startswith t (skipn (Z.to_nat k) s) = true ->
  slice s k (k + len t) = t.
Proof.
  intros Hk Hsw. apply startswith_split in Hsw.
  pose proof (len_nonneg t) as Ht.
  destruct (Z.le_gt_cases k (len s)) as [Hin|Hout].
  - assert (Hlen : k + len t <= len s).
    { apply (f_equal (@length char)) in Hsw.
      rewrite length_app, !length_skipn in Hsw. unfold len in *. lia. }
    rewrite slice_in_range by lia.
    replace (Z.to_nat (k + len t - k)) with (length t) by (unfold len; lia).
    rewrite Hsw. rewrite firstn_app, Nat.sub_diag, firstn_all. simpl.
    now rewrite app_nil_r.
  - rewrite skipn_all2 in Hsw by (unfold len in Hout; lia).
    symmetry in Hsw. apply app_eq_nil in Hsw. destruct Hsw as [-> _].
    unfold slice, clamp. destruct (Z.ltb_spec k 0); [lia|].
    destruct (Z.ltb_spec (k + len (@nil char)) 0); [lia|].
    change (len (@nil char)) with 0. rewrite Z.add_0_r, Z.sub_diag. reflexivity.
Qed.

Lemma startswith_of_slice (s t : str) (k : Z) :
  0 <= k -> slice s k (k + len t) = t ->
  startswith t (skipn (Z.to_nat k) s) = true.
Proof.
  intros Hk Hslice. unfold slice, clamp in Hslice.
  pose proof (len_nonneg t) as Ht.
  destruct (Z.ltb_spec k 0); [lia|].
  destruct (Z.ltb_spec (k + len t) 0); [lia|].
  destruct (Z.le_gt_cases k (len s)) as [Hin|Hout].
  - rewrite (Z.min_l k) in Hslice by lia.
    rewrite <- Hslice at 1. apply startswith_firstn.
  - rewrite (Z.min_r k), (Z.min_r (k + len t)), Z.sub_diag in Hslice by lia.
    simpl in Hslice. subst t. reflexivity.
Qed.

(** When the fragment's text is found, the [try] block of [_make_chunks]
    prints nothing, and the offsets it computes delimit the first occurrence
    of the text in the search text at or after [last_chunk_end_index]. *)
Theorem find_offsets_located (text search : str) (last_chunk_end_index : Z)
    (i : nat) :
  0 <= last_chunk_end_index ->
  find text (slice_from search last_chunk_end_index) = Some i ->
  find_offsets text search last_chunk_end_index
  = (last_chunk_end_index + Z.of_nat i,
     last_chunk_end_index + Z.of_nat i + len text, []) /\
  slice search (last_chunk_end_index + Z.of_nat i)
        (last_chunk_end_index + Z.of_nat i + len text) = text /\
  forall k, last_chunk_end_index <= k < last_chunk_end_index + Z.of_nat i ->
            slice search k (k + len text) <> text.
Proof.
  intros Hlast Hfind.
  split; [unfold find_offsets; now rewrite Hfind|].
  unfold slice_from, clamp in Hfind.
  destruct (Z.ltb_spec last_chunk_end_index 0); [lia|].
  destruct (find_some _ _ i Hfind) as [Hat Hbefore].
  destruct (Z.le_gt_cases last_chunk_end_index (len search)) as [Hin|Hout].
  - rewrite Z.min_l in Hat, Hbefore by lia. split.
    + apply slice_of_startswith; [lia|].
      rewrite skipn_skipn in Hat.
      now replace (Z.to_nat (last_chunk_end_index + Z.of_nat i))
        with (i + Z.to_nat last_chunk_end_index)%nat by lia.
    + intros k Hk Hslice. apply startswith_of_slice in Hslice; [|lia].
      specialize (Hbefore (Z.to_nat (k - last_chunk_end_index)) ltac:(lia)).
      rewrite skipn_skipn in Hbefore.
      replace (Z.to_nat (k - last_chunk_end_index) + Z.to_nat last_chunk_end_index)%nat
        with (Z.to_nat k) in Hbefore by lia.
      congruence.
  - rewrite Z.min_r in Hat, Hbefore, Hfind by lia.
    assert (Hnil : skipn (Z.to_nat (len search)) search = [])
      by (apply skipn_all2; unfold len; lia).
    rewrite Hnil in Hfind. simpl in Hfind.
    destruct (startswith text []) eqn:E; [|discriminate].
    injection Hfind as <-.
    assert (text = []) by (destruct text; [reflexivity|discriminate E]).
    subst text. split; [|intros k Hk; lia].
    apply slice_of_startswith; [lia|reflexivity].
Qed.

Lemma find_offsets_located_witness :
  0 <= 1 /\
  find (lit "b,") (slice_from (lit "a,b,b,") 1) = Some 1%nat /\
  find_offsets (lit "b,") (lit "a,b,b,") 1
  = (1 + Z.of_nat 1, 1 + Z.of_nat 1 + len (lit "b,"), []) /\
  slice (lit "a,b,b,") (1 + Z.of_nat 1) (1 + Z.of_nat 1 + len (lit "b,"))
  = lit "b," /\
  forall k, 1 <= k < 1 + Z.of_nat 1 ->
            slice (lit "a,b,b,") k (k + len (lit "b,")) <> lit "b,".
Proof.
  split; [discriminate|]. split; [reflexivity|].
  apply (find_offsets_located (lit "b,") (lit "a,b,b,") 1 1).
  - discriminate.
  - reflexivity.
Defined.

(** ** The driver at its edges *)

(** With an empty list of levels and a non-empty text, [chunk] returns the
    text whole in ["texts"] mode; in ["chunks"] mode it raises the
    [TypeError] of the constructor of [RecursiveChunk]. *)
Theorem chunk_without_levels (token : Type) (count_tokens : str -> Z)
    (encode : str -> list token) (decode_batch : list (list token) -> list str)
    (self : RecursiveChunker) (text : str) :
  rules self = RulesList [] ->
  text <> [] ->
  chunk token count_tokens encode decode_batch self text
  = match return_type self with
    | Texts => Ok [ItemText text]
    | Chunks => Raise unexpected_keyword_level
    end.
Proof.
  intros Hrules Hne. unfold chunk. rewrite Hrules. cbn [length _recursive_chunk].
  apply (body_past_levels token count_tokens encode decode_batch _ self []);
    [exact Hrules|exact Hne|unfold len; simpl; lia].
Qed.

Lemma chunk_without_levels_witness :
  rules (chunker_of 2 1 Texts []) = RulesList [] /\
  lit "Hi there." <> [] /\
  chunk char char_count_tokens char_encode char_decode_batch
    (chunker_of 2 1 Texts []) (lit "Hi there.")
  = Ok [ItemText (lit "Hi there.")].
Proof.
  split; [reflexivity|]. split; [discriminate|].
  apply (chunk_without_levels char char_count_tokens char_encode
           char_decode_batch (chunker_of 2 1 Texts []) (lit "Hi there.")).
  - reflexivity.
  - discriminate.
Defined.

(** [chunk] returns in two cases only: for the empty text, the empty
    sequence; in ["texts"] mode with an empty list of levels, the text
    itself.  In every other case it raises. *)
Theorem chunk_returns_iff (token : Type) (count_tokens : str -> Z)
    (encode : str -> list token) (decode_batch : list (list token) -> list str)
    (self : RecursiveChunker) (text : str) (items : list item) :
  chunk token count_tokens encode decode_batch self text = Ok items <->
  (text = [] /\ items = []) \/
  (text <> [] /\ rules self = RulesList [] /\ return_type self = Texts /\
   items = [ItemText text]).
Proof.
  unfold chunk. rewrite recursive_chunk_unfold. destruct text as [|x text].
  - rewrite body_empty. split.
    + intros H. injection H as <-. now left.
    + intros [[_ ->]|[Hne _]]; [reflexivity|congruence].
  - assert (Hne : x :: text <> []) by discriminate.
    destruct (rules self) as [bare|[|rl rest]] eqn:Hrules.
    + rewrite body_bare_level with (bare := bare); [|exact Hrules|exact Hne].
      split; [discriminate|]. intros [[H _]|(_ & H & _)]; discriminate.
    + rewrite body_past_levels with (levels := []);
        [|exact Hrules|exact Hne|unfold len; simpl; lia].
      destruct (return_type self); split.
      * discriminate.
      * intros [[H _]|(_ & _ & H & _)]; discriminate.
      * intros H. injection H as <-. right. auto.
      * intros [[H _]|(_ & _ & _ & ->)]; [discriminate|reflexivity].
    + rewrite body_in_hierarchy with (levels := rl :: rest);
        [|exact Hrules|exact Hne|apply len_cons_pos].
      split; [discriminate|]. intros [[H _]|(_ & H & _)]; discriminate.
Qed.
